(** * Well-log curve preparation and fraction polygons (LAS-KGS.py)

    A shallow embedding of the data-wrangling stages (steps 5, 7 and 8)
    and of the fraction-to-polygon construction of the script
    [LAS-KGS.py], followed by the properties stated about them.

    Modelling conventions.
    - A Python float is an exact rational ([Qc], canonical fractions, so
      that Leibniz equality is value equality).  The rounding and the
      overflow of double precision are not modelled; a property of the
      arithmetic of line 137 or of [np.linspace] is therefore stated only
      in the form that rounding to nearest keeps (an order is kept,
      never reflected; equalities are claimed only where the double
      operation is exact), and under the hypothesis that the range
      involved is at most [max_double], so that the subtraction cannot
      overflow.
    - The pandas/numpy absence marker NaN of a table cell is [None].
    - A float division may produce infinities and NaN: [fval].
    - The module-level variables holding data frames are a finite map
      from variable names to tables; reading an unbound name raises
      [NameError].
    - A Python list is a [list]; indexing out of range raises
      [IndexError]. *)

From Stdlib Require Import QArith Qcanon Lia.
From stdpp Require Import base option list numbers strings gmap.

Local Open Scope Qc_scope.

(** ** Outcomes: a statement returns or raises *)

Inductive error : Type :=
  | NameError
  | IndexError
  | KeyError
  (* error kinds named by the specification *)
  | MissingColumnError
  | EmptyTableError
  | EmptyDepthRangeError
  | LengthMismatchError.

Inductive outcome (A : Type) : Type :=
  | Returned (a : A)
  | Raised (e : error).
Arguments Returned {A} a.
Arguments Raised {A} e.

Global Instance outcome_ret : MRet outcome := λ A a, Returned a.
Global Instance outcome_bind : MBind outcome := λ A B k m,
  match m with
  | Returned a => k a
  | Raised e => Raised e
  end.

(** [for i in idx: st = body i st] *)
Fixpoint for_each {S : Type} (idx : list nat) (body : nat -> S -> outcome S)
    (st : S) : outcome S :=
  match idx with
  | [] => Returned st
  | i :: rest => st' ← body i st; for_each rest body st'
  end.

(** [l[i]] for a non-negative index *)
Definition getitem {A : Type} (l : list A) (i : nat) : outcome A :=
  match l !! i with
  | Some x => Returned x
  | None => Raised IndexError
  end.

(** [l[i] = x] for a non-negative index *)
Definition setitem {A : Type} (l : list A) (i : nat) (x : A) : outcome (list A) :=
  if decide (i < length l)%nat then Returned (<[i:=x]> l) else Raised IndexError.

(** ** Numbers *)

Definition dec (q : Q) : Qc := Q2Qc q.

(** A table cell: a number or the absence marker. *)
Definition cell : Type := option Qc.

(** The result of a float division. *)
Inductive fval : Type :=
  | Fin (q : Qc)
  | PInf
  | NInf
  | NaN.

(** [a - b] on cells: NaN propagates.  The difference is exact: it is
    neither rounded nor turned into an infinity when it exceeds
    [max_double]. *)
Definition fsub (a b : cell) : cell :=
  match a, b with
  | Some x, Some y => Some (x - y)
  | _, _ => None
  end.

(** [a / b] with numpy's float semantics: nothing is raised on a zero
    divisor; [0/0] is NaN and [x/0] is an infinity of the sign of [x]
    (the divisor here is a difference [max - min], hence [+0.0]). *)
Definition fdiv (a b : cell) : fval :=
  match a, b with
  | Some x, Some y =>
      if decide (y = 0) then
        if decide (x = 0) then NaN
        else if decide (0 < x) then PInf else NInf
      else Fin (x / y)
  | _, _ => NaN
  end.

Definition Qc_min (x y : Qc) : Qc := if decide (x ≤ y) then x else y.
Definition Qc_max (x y : Qc) : Qc := if decide (x ≤ y) then y else x.

(** [Series.min()] and [Series.max()]: absent cells are skipped; the
    result is NaN when no cell is present. *)
Fixpoint series_min (s : list cell) : cell :=
  match s with
  | [] => None
  | None :: s' => series_min s'
  | Some x :: s' =>
      match series_min s' with
      | None => Some x
      | Some m => Some (Qc_min x m)
      end
  end.

Fixpoint series_max (s : list cell) : cell :=
  match s with
  | [] => None
  | None :: s' => series_max s'
  | Some x :: s' =>
      match series_max s' with
      | None => Some x
      | Some m => Some (Qc_max x m)
      end
  end.

(** ** Curve tables *)

Inductive column : Type := CNPOR | GR | RHOB | DT | MELCAL | SPOR.

(** One row of [df_selected]: the depth index and the six selected logs. *)
Record row : Type := mkRow {
  Depth : Qc;
  cnpor : cell;
  gr : cell;
  rhob : cell;
  dt : cell;
  melcal : cell;
  spor : cell
}.

Definition col (c : column) (r : row) : cell :=
  match c with
  | CNPOR => cnpor r
  | GR => gr r
  | RHOB => rhob r
  | DT => dt r
  | MELCAL => melcal r
  | SPOR => spor r
  end.

Definition table : Type := list row.

Definition notna (x : cell) : bool :=
  match x with Some _ => true | None => false end.

(** [t.dropna(subset=subset, axis=0, how='any')]: a new table without the
    rows in which some column of [subset] is absent. *)
Definition dropna (subset : list column) (t : table) : table :=
  List.filter (fun r => forallb (fun c => notna (col c r)) subset) t.

(** [(t.c > low) & (t.c <= high)] for one row; a comparison with NaN is
    false. *)
Definition in_range (c : column) (low high : Qc) (r : row) : bool :=
  match col c r with
  | Some v => bool_decide (low < v) && bool_decide (v ≤ high)
  | None => false
  end.

(** [t[(t.c > low) & (t.c <= high)]] *)
Definition filterRange (c : column) (low high : Qc) (t : table) : table :=
  List.filter (in_range c low high) t.

(** ** The data-frame variables of the script *)

Definition getvar (σ : gmap string table) (x : string) : outcome table :=
  match σ !! x with
  | Some t => Returned t
  | None => Raised NameError
  end.

(** Step 5, line 89. *)
Definition step5 (σ : gmap string table) : outcome (gmap string table) :=
  df_selected ← getvar σ "df_selected";
  Returned (<["df_dropped" := dropna [GR; DT; SPOR] df_selected]> σ).

(** Step 7, lines 121-124. *)
Definition step7 (σ : gmap string table) : outcome (gmap string table) :=
  df_dropped ← getvar σ "df_dropped";
  let σ := <["df_filt" := filterRange CNPOR (dec (-15)) (dec 50) df_dropped]> σ in
  df_dropped ← getvar σ "df_dropped";
  let σ := <["df_filt" := filterRange GR (dec 0) (dec 250) df_dropped]> σ in
  df_dropped ← getvar σ "df_dropped";
  let σ := <["df_filt" := filterRange RHOB (dec 1) (dec 3) df_dropped]> σ in
  df_dropped ← getvar σ "df_dropped";
  let σ := <["df_filt" := filterRange DT (dec 30) (dec 140) df_dropped]> σ in
  Returned σ.

(** ** Step 8: the computed shale-volume column *)

(** A row of [df] after line 137: the logs and the new [Vsh] value. *)
Record vrow : Type := mkVrow {
  logs : row;
  Vsh : fval
}.

(** Line 137:
    [df['Vsh'] = (df.GR - df.GR.min()) / (df.GR.max() - df.GR.min())] *)
Definition add_Vsh (t : table) : list vrow :=
  let GRs := map gr t in
  let lo := series_min GRs in
  let hi := series_max GRs in
  map (fun r => mkVrow r (fdiv (fsub (gr r) lo) (fsub hi lo))) t.

(** [deriveShaleFraction]: lines 131 and 137.  Neither the copy nor the
    float arithmetic has a raising path. *)
Definition deriveShaleFraction (t : table) : outcome (list vrow) :=
  let df := t in
  Returned (add_Vsh df).

(** ** The blocky fraction log (lines 311-358) *)

(** A [[value, depth]] pair is a two-element Python list. *)
Definition point : Type := list Qc.

Definition series1 : list Qc := [dec 0.292; dec 0.333; dec 0.200; dec 0.458; dec 0.292].
Definition series2 : list Qc := [dec 0.083; dec 0.125; dec 0.167; dec 0.125; dec 0.083].
Definition series3 : list Qc := [dec 0.292; dec 0.333; dec 0.292; dec 0.083; dec 0.083].
Definition series4 : list Qc := [dec 0.333; dec 0.208; dec 0.341; dec 0.333; dec 0.542].

(** [np.linspace(start, stop, num)] with the default [endpoint=True]:
    [start + i * step] with [step = (stop - start) / (num - 1)], the last
    sample being set to [stop].  The arithmetic is exact here: the
    rounding of the samples, the overflow of [stop - start] and the
    separate path numpy takes when the step underflows to zero are not
    modelled. *)
Definition linspace (start stop : Qc) (num : nat) : list Qc :=
  match num with
  | O => []
  | 1%nat => [start]
  | S div =>
      let step := (stop - start) / Qc_of_Z (Z.of_nat div) in
      map (fun i => Qc_of_Z (Z.of_nat i) * step + start) (seq 0 div) ++ [stop]
  end.

(** The construction, over any four series and any depth samples (inside
    the section the names [series1 .. series4] are the parameters). *)
Section Fractions.
Variables series1 series2 series3 series4 : list Qc.
Variable depths : list Qc.

(** The four lists being filled, [fraction1 .. fraction4]. *)
Definition fracs : Type :=
  (list point * list point * list point * list point)%type.

(** Line 343: [[[]]*len(depths)], four times. *)
Definition fracs_init : fracs :=
  let n := length depths in
  (replicate n [], replicate n [], replicate n [], replicate n []).

(** Lines 346-349, one pass of the loop body. *)
Definition loop_body (i : nat) (st : fracs) : outcome fracs :=
  let '(fraction1, fraction2, fraction3, fraction4) := st in
  a1 ← getitem series1 i;
  d ← getitem depths i;
  fraction1 ← setitem fraction1 i [a1; d];
  b2 ← getitem series2 i;
  b1 ← getitem series1 i;
  d ← getitem depths i;
  fraction2 ← setitem fraction2 i [b2 + b1; d];
  c3 ← getitem series3 i;
  c2 ← getitem series2 i;
  c1 ← getitem series1 i;
  d ← getitem depths i;
  fraction3 ← setitem fraction3 i [c3 + c2 + c1; d];
  e4 ← getitem series4 i;
  e3 ← getitem series3 i;
  e2 ← getitem series2 i;
  e1 ← getitem series1 i;
  d ← getitem depths i;
  fraction4 ← setitem fraction4 i [e4 + e3 + e2 + e1; d];
  Returned (fraction1, fraction2, fraction3, fraction4).

(** Lines 343-350. *)
Definition fractions : outcome fracs :=
  for_each (seq 0 (length depths)) loop_body fracs_init.

Variables min_depth max_depth : Qc.

(** Lines 323, 325 and 354-358.  Each [polygonK] is a one-element list
    holding the vertex list, the shape [ContourSet] takes. *)
Definition polygons : outcome (list (list (list point))) :=
  let min_coord : list point := [[0; min_depth]] in
  let max_coord : list point := [[0; max_depth]] in
  '(fraction1, fraction2, fraction3, fraction4) ← fractions;
  let polygon1 := [(max_coord ++ min_coord) ++ fraction1] in
  let polygon2 := [fraction1 ++ reverse fraction2] in
  let polygon3 := [fraction2 ++ reverse fraction3] in
  let polygon4 := [fraction3 ++ reverse fraction4] in
  Returned [polygon1; polygon2; polygon3; polygon4].
End Fractions.

(** Lines 316-358 with the script's own series: [depths] is
    [np.linspace(min_depth, max_depth, 5)]. *)
Definition script_polygons (min_depth max_depth : Qc)
    : outcome (list (list (list point))) :=
  let depths := linspace min_depth max_depth 5 in
  polygons series1 series2 series3 series4 depths min_depth max_depth.

(** ** The construction in the specification's words *)

Module Spec.
(** [C[k][i]]: the sum of [componentSeries[0..k]] at sample [i]. *)
Definition C (componentSeries : list (list Qc)) (k i : nat) : Qc :=
  foldl Qcplus 0 (map (fun s => default 0 (s !! i)) (take (S k) componentSeries)).

(** [V[k][i] = (C[k][i], depths[i])] *)
Definition V (componentSeries : list (list Qc)) (depths : list Qc) (k : nat)
    : list point :=
  imap (fun i d => [C componentSeries k i; d]) depths.

(** The polygon of component [k]. *)
Definition polygon (componentSeries : list (list Qc)) (depths : list Qc)
    (minDepth maxDepth : Qc) (k : nat) : list point :=
  match k with
  | O => [[0; maxDepth]; [0; minDepth]] ++ V componentSeries depths 0
  | S k' => V componentSeries depths k' ++ reverse (V componentSeries depths k)
  end.
End Spec.

(** ** Predicates used in the statements *)

(** No column of [subset] is absent in row [r]. *)
Definition complete (subset : list column) (r : row) : Prop :=
  ∀ c, c ∈ subset -> col c r ≠ None.

(** The value of series [s] at sample [i] (0 beyond its end). *)
Definition at_sample (s : list Qc) (i : nat) : Qc := default 0 (s !! i).

(** The list [[g 0, d0], [g 1, d1], ...] over the depth samples. *)
Definition vertices (g : nat -> Qc) (depths : list Qc) : list point :=
  imap (fun i d => [g i; d]) depths.

(** A fraction list after the first [j] passes of the loop. *)
Definition filled (g : nat -> Qc) (depths : list Qc) (j : nat) : list point :=
  take j (vertices g depths) ++ replicate (length depths - j) [].

(** The four running sums, in the order the script adds them. *)
Definition sum1 (s1 : list Qc) (i : nat) : Qc := at_sample s1 i.
Definition sum2 (s1 s2 : list Qc) (i : nat) : Qc :=
  at_sample s2 i + at_sample s1 i.
Definition sum3 (s1 s2 s3 : list Qc) (i : nat) : Qc :=
  at_sample s3 i + at_sample s2 i + at_sample s1 i.
Definition sum4 (s1 s2 s3 s4 : list Qc) (i : nat) : Qc :=
  at_sample s4 i + at_sample s3 i + at_sample s2 i + at_sample s1 i.

(** ** Example data

    A small table for step 7: the first row is outside the CNPOR, GR and
    RHOB ranges but inside the DT range; the second is the opposite. *)
Definition demo_rows : table :=
  [ mkRow (dec 100) (Some (dec 60)) (Some (dec 300)) (Some (dec 5))
          (Some (dec 80)) None (Some (dec 12));
    mkRow (dec 100.5) (Some (dec 20)) (Some (dec 90)) (Some (dec 2))
          (Some (dec 150)) None (Some (dec 12)) ].

Definition demo_store : gmap string table :=
  {[ "df_dropped" := demo_rows ]}.

(** The four fraction lists after the first [j] passes of the loop. *)
Definition loop_state (s1 s2 s3 s4 depths : list Qc) (j : nat) : fracs :=
  (filled (sum1 s1) depths j, filled (sum2 s1 s2) depths j,
   filled (sum3 s1 s2 s3) depths j, filled (sum4 s1 s2 s3 s4) depths j).

(** The depth samples of the reference example. *)
Definition depths5 : list Qc := [dec 0; dec 1; dec 2; dec 3; dec 4].

(** The vertex list expected for the first component of the reference
    example: [(0,4), (0,0), (0.292,0), (0.333,1), (0.200,2), (0.458,3),
    (0.292,4)]. *)
Definition reference_polygon1 : list point :=
  [ [dec 0; dec 4]; [dec 0; dec 0]; [dec 0.292; dec 0]; [dec 0.333; dec 1];
    [dec 0.200; dec 2]; [dec 0.458; dec 3]; [dec 0.292; dec 4] ].

(** A first series one sample longer than the five depth samples, and one
    a sample shorter. *)
Definition series1_long : list Qc := series1 ++ [dec 0.1].
Definition series1_short : list Qc := take 4 series1.

Global Instance fval_eq_dec : EqDecision fval.
Proof. solve_decision. Defined.

(** The property claimed of [deriveShaleFraction] on a non-empty table:
    every value in [0,1], exactly one row at 0 and exactly one at 1. *)
Definition unit_interval_once (t : table) : Prop :=
  t ≠ [] ->
  ∃ vs, deriveShaleFraction t = Returned vs
        ∧ (∀ vr, vr ∈ vs -> ∃ v, Vsh vr = Fin v ∧ 0 ≤ v ∧ v ≤ 1)
        ∧ length (filter (fun vr => Vsh vr = Fin 0) vs) = 1%nat
        ∧ length (filter (fun vr => Vsh vr = Fin 1) vs) = 1%nat.

(** A row at depth [d] with gamma-ray value [g]; the other logs absent. *)
Definition gr_row (d g : Qc) : row :=
  mkRow d None (Some g) None None None None.

(** Two rows share the minimum gamma-ray value. *)
Definition tied_rows : table :=
  [gr_row (dec 100) (dec 10); gr_row (dec 100.5) (dec 10);
   gr_row (dec 101) (dec 20)].

(** A single row: the maximum is the minimum. *)
Definition one_row : table := [gr_row (dec 100) (dec 10)].

(** A constant gamma-ray column. *)
Definition constant_rows : table :=
  [gr_row (dec 100) (dec 45); gr_row (dec 100.5) (dec 45);
   gr_row (dec 101) (dec 45)].

(** A vertex [[x, d]] whose value lies in the plotted range [0, 1] (the
    [xlim] of lines 381 and 448). *)
Definition in_unit_range (v : point) : Prop :=
  ∃ x d, v = [x; d] ∧ 0 ≤ x ∧ x ≤ 1.


(** Consecutive elements never decrease. *)
Definition non_decreasing (l : list Qc) : Prop :=
  ∀ i x y, l !! i = Some x -> l !! S i = Some y -> x ≤ y.

(** Lines 322 and 324: [df_idx.Depth.min()] and [df_idx.Depth.max()]. *)
Definition Depth_min (df_idx : list vrow) : cell :=
  series_min (map (fun vr => Some (Depth (logs vr))) df_idx).
Definition Depth_max (df_idx : list vrow) : cell :=
  series_max (map (fun vr => Some (Depth (logs vr))) df_idx).

(** A Vsh value that is a number of [0, 1]. *)
Definition unit_value (x : fval) : Prop := ∃ v, x = Fin v ∧ 0 ≤ v ∧ v ≤ 1.

(** Two rows of a table after line 137 (depths 100 and 250). *)
Definition two_depths : list vrow :=
  [mkVrow (gr_row (dec 250) (dec 10)) NaN; mkVrow (gr_row (dec 100) (dec 20)) NaN].

(** Line 80, [df_selected.isna().sum()]: the number of rows in which
    column [c] is absent. *)
Definition isna_sum (c : column) (t : table) : nat :=
  length (List.filter (fun r => negb (notna (col c r))) t).

(** Lines 89-137 in sequence: steps 5 and 7 on the data-frame variables,
    then the copy of [df_filt] with its Vsh column. *)
Definition steps_5_to_8 (σ : gmap string table) : outcome (list vrow) :=
  σ ← step5 σ;
  σ ← step7 σ;
  df_filt ← getvar σ "df_filt";
  deriveShaleFraction df_filt.

(** A table of [df_selected] for the whole sequence: the first row lacks
    SPOR, the second has a DT out of range, the last two pass. *)
Definition selected_rows : table :=
  [ mkRow (dec 100) None (Some (dec 40)) None (Some (dec 80)) None None;
    mkRow (dec 100.5) None (Some (dec 50)) None (Some (dec 150)) None (Some (dec 9));
    mkRow (dec 101) None (Some (dec 300)) None (Some (dec 90)) None (Some (dec 9));
    mkRow (dec 101.5) None (Some (dec 60)) None (Some (dec 140)) None (Some (dec 9)) ].

Definition selected_store : gmap string table :=
  {[ "df_selected" := selected_rows ]}.

(** The largest finite double, [2^1024 - 2^971]. *)
Definition max_double : Qc := Qc_of_Z (2 ^ 1024 - 2 ^ 971).

(** The difference between the largest and the smallest gamma-ray value
    of a table is a finite double. *)
Definition finite_spread (t : table) : Prop :=
  ∀ lo hi, series_min (map gr t) = Some lo -> series_max (map gr t) = Some hi ->
           hi - lo ≤ max_double.

(** * Properties *)

(** ** Range filtering and row dropping *)

Lemma filter_twice {A : Type} (p : A -> bool) (l : list A) :
  List.filter p (List.filter p l) = List.filter p l.
Proof.
  induction l as [|x l IH]; simpl; [reflexivity|].
  destruct (p x) eqn:Hx; simpl; [rewrite Hx, IH|]; done.
Qed.

Lemma filter_sublist {A : Type} (p : A -> bool) (l : list A) :
  List.filter p l `sublist_of` l.
Proof.
  induction l as [|x l IH]; simpl; [constructor|].
  destruct (p x); by constructor.
Qed.

Lemma filter_greatest {A : Type} (p : A -> bool) (s l : list A) :
  s `sublist_of` l -> Forall (fun x => p x = true) s ->
  s `sublist_of` List.filter p l.
Proof.
  induction 1 as [|x s l Hs IH|x s l Hs IH]; intros Hall; simpl.
  - constructor.
  - inversion Hall as [|? ? Hx Hrest]; subst.
    rewrite Hx. constructor. by apply IH.
  - destruct (p x); [constructor|]; by apply IH.
Qed.

Lemma complete_forallb (subset : list column) (r : row) :
  forallb (fun c => notna (col c r)) subset = true ↔ complete subset r.
Proof.
  unfold complete. rewrite forallb_forall. split; intros H c Hc.
  - apply list_elem_of_In, H in Hc. by destruct (col c r).
  - apply list_elem_of_In, H in Hc. by destruct (col c r).
Qed.

Lemma in_range_spec (c : column) (low high : Qc) (r : row) :
  in_range c low high r = true ↔ ∃ v, col c r = Some v ∧ low < v ∧ v ≤ high.
Proof.
  unfold in_range. destruct (col c r) as [v|].
  - rewrite andb_true_iff, !bool_decide_eq_true. split.
    + intros [? ?]. by exists v.
    + intros (v' & [= <-] & ? & ?). done.
  - split; [done|]. by intros (v & ? & _).
Qed.

(** C7: [filterRange] is idempotent: for every table, column and bounds,
    filtering the output of the filter [low < value <= high] again with
    the same column and bounds returns that output unchanged. *)
Theorem filterRange_idempotent (c : column) (low high : Qc) (t : table) :
  filterRange c low high (filterRange c low high t) = filterRange c low high t.
Proof. unfold filterRange. apply filter_twice. Qed.

(** C8: for every table and every list of required columns, [dropna]
    keeps exactly the rows in which no required column is absent: a row
    is in the result iff it is in the input and complete; the result is
    a subsequence of the input (order kept, nothing added) and contains
    every subsequence of complete rows (nothing complete is removed).
    Line 89 binds the result to [df_dropped] and leaves [df_selected]
    as it was. *)
Theorem dropna_exact (subset : list column) (t : table) :
  (∀ r, r ∈ dropna subset t ↔ r ∈ t ∧ complete subset r)
  ∧ dropna subset t `sublist_of` t
  ∧ (∀ s, s `sublist_of` t -> Forall (complete subset) s ->
          s `sublist_of` dropna subset t)
  ∧ (∀ σ : gmap string table, σ !! "df_selected" = Some t ->
       ∃ σ', step5 σ = Returned σ'
             ∧ σ' !! "df_selected" = Some t
             ∧ σ' !! "df_dropped" = Some (dropna [GR; DT; SPOR] t)).
Proof.
  unfold dropna. split; [|split; [|split]].
  - intros r. rewrite !list_elem_of_In, filter_In, complete_forallb. done.
  - apply filter_sublist.
  - intros s Hs Hall. apply filter_greatest; [done|].
    eapply Forall_impl; [exact Hall|]. intros r Hr. by apply complete_forallb.
  - intros σ Hσ. unfold step5, getvar. rewrite Hσ. simpl.
    eexists. split; [reflexivity|]. split.
    + by rewrite lookup_insert_ne.
    + by rewrite lookup_insert_eq.
Qed.

(** C1: when lines 121-124 have run, [df_filt] is [df_dropped] restricted
    by the bounds of the last column only, [30 < DT <= 140]; every other
    variable is as before, and a row of [df_dropped] is in the final
    [df_filt] iff its DT value is present and within those bounds,
    whatever its CNPOR, GR and RHOB values. *)
Theorem step7_last_filter_only (σ : gmap string table) (t : table)
    (Hdropped : σ !! "df_dropped" = Some t) :
  step7 σ = Returned (<["df_filt" := filterRange DT (dec 30) (dec 140) t]> σ)
  ∧ (∀ r, r ∈ filterRange DT (dec 30) (dec 140) t ↔
          r ∈ t ∧ ∃ v, dt r = Some v ∧ dec 30 < v ∧ v ≤ dec 140).
Proof.
  split.
  - unfold step7, getvar. rewrite Hdropped. simpl.
    repeat (rewrite ?lookup_insert_ne by done; rewrite Hdropped; simpl).
    by rewrite !insert_insert_eq.
  - intros r. unfold filterRange.
    rewrite !list_elem_of_In, filter_In, in_range_spec. done.
Qed.

Lemma step7_last_filter_only_demo :
  demo_store !! "df_dropped" = Some demo_rows
  ∧ step7 demo_store
    = Returned (<["df_filt" := filterRange DT (dec 30) (dec 140) demo_rows]> demo_store)
  ∧ (∀ r, r ∈ filterRange DT (dec 30) (dec 140) demo_rows ↔
          r ∈ demo_rows ∧ ∃ v, dt r = Some v ∧ dec 30 < v ∧ v ≤ dec 140).
Proof.
  split; [reflexivity|].
  apply (step7_last_filter_only demo_store demo_rows). reflexivity.
Defined.

(** On the small table the row outside the CNPOR, GR and RHOB ranges is
    the one that remains. *)
Lemma step7_demo_rows :
  filterRange DT (dec 30) (dec 140) demo_rows
  = [ mkRow (dec 100) (Some (dec 60)) (Some (dec 300)) (Some (dec 5))
            (Some (dec 80)) None (Some (dec 12)) ].
Proof. reflexivity. Qed.

(** ** The vertex loop *)

Lemma getitem_Some {A : Type} (l : list A) (i : nat) (x : A) :
  l !! i = Some x -> getitem l i = Returned x.
Proof. unfold getitem. by intros ->. Qed.

Lemma getitem_at_sample (s : list Qc) (i : nat) :
  (i < length s)%nat -> getitem s i = Returned (at_sample s i).
Proof.
  intros Hi. destruct (lookup_lt_is_Some_2 s i Hi) as [x Hx].
  unfold at_sample. rewrite Hx. by apply getitem_Some.
Qed.

Lemma getitem_short {A : Type} (l : list A) (i : nat) :
  (length l ≤ i)%nat -> getitem l i = Raised IndexError.
Proof. intros Hi. unfold getitem. by rewrite lookup_ge_None_2. Qed.

Lemma length_vertices (g : nat -> Qc) (depths : list Qc) :
  length (vertices g depths) = length depths.
Proof. unfold vertices. by rewrite length_imap. Qed.

Lemma length_filled (g : nat -> Qc) (depths : list Qc) (j : nat) :
  (j ≤ length depths)%nat -> length (filled g depths j) = length depths.
Proof.
  intros Hj. unfold filled.
  rewrite length_app, length_take, length_vertices, length_replicate. lia.
Qed.

Lemma filled_0 (g : nat -> Qc) (depths : list Qc) :
  filled g depths 0 = replicate (length depths) [].
Proof. unfold filled. by rewrite take_0, Nat.sub_0_r. Qed.

Lemma filled_all (g : nat -> Qc) (depths : list Qc) :
  filled g depths (length depths) = vertices g depths.
Proof.
  unfold filled. rewrite Nat.sub_diag, app_nil_r.
  apply take_ge. by rewrite length_vertices.
Qed.

Lemma setitem_filled (g : nat -> Qc) (depths : list Qc) (j : nat) (d : Qc) :
  depths !! j = Some d ->
  setitem (filled g depths j) j [g j; d] = Returned (filled g depths (S j)).
Proof.
  intros Hd. pose proof (lookup_lt_Some _ _ _ Hd) as Hj.
  unfold setitem. rewrite length_filled by lia.
  rewrite decide_True by done. f_equal. unfold filled.
  assert (Hv : vertices g depths !! j = Some [g j; d]).
  { unfold vertices. by rewrite list_lookup_imap, Hd. }
  erewrite take_S_r by exact Hv.
  rewrite insert_app_r_alt by (rewrite length_take, length_vertices; lia).
  rewrite length_take, length_vertices.
  replace (j - j `min` length depths)%nat with 0%nat by lia.
  replace (length depths - j)%nat with (S (length depths - S j)) by lia.
  simpl. by rewrite <- app_assoc.
Qed.

Lemma setitem_filled_eq (g : nat -> Qc) (depths : list Qc) (j : nat) (d x : Qc) :
  depths !! j = Some d -> x = g j ->
  setitem (filled g depths j) j [x; d] = Returned (filled g depths (S j)).
Proof. intros Hd ->. by apply setitem_filled. Qed.

Lemma getitem_cases {A : Type} (l : list A) (i : nat) :
  (∃ x, getitem l i = Returned x ∧ (i < length l)%nat)
  ∨ getitem l i = Raised IndexError.
Proof.
  unfold getitem. destruct (l !! i) as [x|] eqn:Hx; [left|by right].
  exists x. split; [done|]. by eapply lookup_lt_Some.
Qed.

Lemma setitem_cases {A : Type} (l : list A) (i : nat) (x : A) :
  (∃ l', setitem l i x = Returned l') ∨ setitem l i x = Raised IndexError.
Proof. unfold setitem. destruct (decide _); [left; eauto|by right]. Qed.

Section LoopFacts.
Variables s1 s2 s3 s4 depths : list Qc.

Let body := loop_body s1 s2 s3 s4 depths.
Let state := loop_state s1 s2 s3 s4 depths.

Lemma loop_body_ok (j : nat) :
  (j < length depths)%nat ->
  (j < length s1)%nat -> (j < length s2)%nat ->
  (j < length s3)%nat -> (j < length s4)%nat ->
  body j (state j) = Returned (state (S j)).
Proof.
  intros Hd H1 H2 H3 H4.
  destruct (lookup_lt_is_Some_2 depths j Hd) as [d Hdj].
  unfold body, state, loop_body, loop_state.
  rewrite (getitem_at_sample s1), (getitem_at_sample s2),
    (getitem_at_sample s3), (getitem_at_sample s4) by done.
  rewrite (getitem_Some depths j d Hdj). simpl.
  rewrite (setitem_filled_eq (sum1 s1) depths j d (at_sample s1 j) Hdj eq_refl).
  simpl.
  rewrite (setitem_filled_eq (sum2 s1 s2) depths j d
             (at_sample s2 j + at_sample s1 j) Hdj eq_refl).
  simpl.
  rewrite (setitem_filled_eq (sum3 s1 s2 s3) depths j d
             (at_sample s3 j + at_sample s2 j + at_sample s1 j) Hdj eq_refl).
  simpl.
  rewrite (setitem_filled_eq (sum4 s1 s2 s3 s4) depths j d
             (at_sample s4 j + at_sample s3 j + at_sample s2 j + at_sample s1 j)
             Hdj eq_refl).
  simpl.
  reflexivity.
Qed.

Lemma loop_body_short (j : nat) (st : fracs) :
  (length s1 ≤ j ∨ length s2 ≤ j ∨ length s3 ≤ j ∨ length s4 ≤ j)%nat ->
  body j st = Raised IndexError.
Proof.
  intros Hshort. destruct st as [[[f1 f2] f3] f4].
  unfold body, loop_body.
  repeat match goal with
  | |- context [getitem ?l ?i] =>
      destruct (getitem_cases l i) as [(? & -> & ?) | ->]; simpl; [|done]
  | |- context [setitem ?l ?i ?x] =>
      destruct (setitem_cases l i x) as [(? & ->) | ->]; simpl; [|done]
  end.
  lia.
Qed.

Lemma for_each_ok (m j : nat) :
  (j + m ≤ length depths)%nat ->
  (j + m ≤ length s1)%nat -> (j + m ≤ length s2)%nat ->
  (j + m ≤ length s3)%nat -> (j + m ≤ length s4)%nat ->
  for_each (seq j m) body (state j) = Returned (state (j + m)).
Proof.
  revert j. induction m as [|m IH]; intros j Hd H1 H2 H3 H4.
  - simpl. by rewrite Nat.add_0_r.
  - change (for_each (seq j (S m)) body (state j))
      with (body j (state j) ≫= for_each (seq (S j) m) body).
    rewrite loop_body_ok by lia.
    change (for_each (seq (S j) m) body (state (S j))
            = Returned (state (j + S m))).
    rewrite IH by lia. f_equal. f_equal. lia.
Qed.

Lemma for_each_short (j0 m j : nat) :
  (j ≤ j0 < j + m)%nat -> (j0 < length depths)%nat ->
  (j0 ≤ length s1)%nat -> (j0 ≤ length s2)%nat ->
  (j0 ≤ length s3)%nat -> (j0 ≤ length s4)%nat ->
  (length s1 ≤ j0 ∨ length s2 ≤ j0 ∨ length s3 ≤ j0 ∨ length s4 ≤ j0)%nat ->
  for_each (seq j m) body (state j) = Raised IndexError.
Proof.
  intros Hj Hd H1 H2 H3 H4 Hshort. revert j Hj.
  induction m as [|m IH]; intros j Hj; [lia|].
  change (for_each (seq j (S m)) body (state j))
    with (body j (state j) ≫= for_each (seq (S j) m) body).
  destruct (decide (j = j0)) as [->|Hne].
  - by rewrite loop_body_short.
  - rewrite loop_body_ok by lia. apply IH. lia.
Qed.

(** With every series at least as long as [depths], the loop fills
    the four lists with the running sums paired with the depths. *)
Lemma fractions_ok :
  (length depths ≤ length s1)%nat -> (length depths ≤ length s2)%nat ->
  (length depths ≤ length s3)%nat -> (length depths ≤ length s4)%nat ->
  fractions s1 s2 s3 s4 depths
  = Returned (vertices (sum1 s1) depths, vertices (sum2 s1 s2) depths,
              vertices (sum3 s1 s2 s3) depths,
              vertices (sum4 s1 s2 s3 s4) depths).
Proof.
  intros H1 H2 H3 H4. unfold fractions, fracs_init.
  trans (for_each (seq 0 (length depths)) body (state 0)).
  { unfold state, loop_state. by rewrite !filled_0. }
  rewrite for_each_ok by (simpl; lia).
  unfold state, loop_state. simpl. by rewrite !filled_all.
Qed.

(** With some series shorter than [depths], the loop raises. *)
Lemma fractions_short :
  (length s1 < length depths ∨ length s2 < length depths
   ∨ length s3 < length depths ∨ length s4 < length depths)%nat ->
  fractions s1 s2 s3 s4 depths = Raised IndexError.
Proof.
  intros Hshort. unfold fractions, fracs_init.
  pose (j0 := ((length s1 `min` length s2) `min`
               (length s3 `min` length s4))%nat).
  trans (for_each (seq 0 (length depths)) body (state 0)).
  { unfold state, loop_state. by rewrite !filled_0. }
  apply (for_each_short j0); unfold j0; lia.
Qed.
End LoopFacts.

(** ** The running sums are the specification's cumulative series *)

Lemma C_0 (cs : list (list Qc)) (s : list Qc) (i : nat) :
  cs !! 0%nat = Some s -> Spec.C cs 0 i = at_sample s i.
Proof.
  destruct cs as [|s' cs]; intros [= ->].
  unfold Spec.C, at_sample. simpl. by rewrite Qcplus_0_l.
Qed.

Lemma C_S (cs : list (list Qc)) (k : nat) (s : list Qc) (i : nat) :
  cs !! S k = Some s -> Spec.C cs (S k) i = Spec.C cs k i + at_sample s i.
Proof.
  intros Hs. unfold Spec.C.
  rewrite (take_S_r cs (S k) s Hs), map_app, foldl_app. reflexivity.
Qed.

Lemma C_past_end (cs : list (list Qc)) (k i : nat) :
  (length cs ≤ S k)%nat -> Spec.C cs (S k) i = Spec.C cs k i.
Proof.
  intros Hk. unfold Spec.C. rewrite (take_ge cs (S (S k))) by lia.
  by rewrite (take_ge cs (S k)) by lia.
Qed.

Section RunningSums.
Variables s1 s2 s3 s4 : list Qc.
Let cs := [s1; s2; s3; s4].

Lemma sum1_C (i : nat) : sum1 s1 i = Spec.C cs 0 i.
Proof. unfold sum1. by rewrite (C_0 cs s1). Qed.

Lemma sum2_C (i : nat) : sum2 s1 s2 i = Spec.C cs 1 i.
Proof.
  rewrite (C_S cs 0 s2), <- sum1_C by done. unfold sum2, sum1. ring.
Qed.

Lemma sum3_C (i : nat) : sum3 s1 s2 s3 i = Spec.C cs 2 i.
Proof.
  rewrite (C_S cs 1 s3), <- sum2_C by done. unfold sum3, sum2. ring.
Qed.

Lemma sum4_C (i : nat) : sum4 s1 s2 s3 s4 i = Spec.C cs 3 i.
Proof.
  rewrite (C_S cs 2 s4), <- sum3_C by done. unfold sum4, sum3. ring.
Qed.
End RunningSums.

Lemma vertices_ext (g h : nat -> Qc) (depths : list Qc) :
  (∀ i, g i = h i) -> vertices g depths = vertices h depths.
Proof.
  intros Hgh. unfold vertices. apply imap_ext. intros i d _. by rewrite Hgh.
Qed.

(** The loop computes the specification's vertex series [V[0..3]]. *)
Lemma fractions_V (s1 s2 s3 s4 depths : list Qc) :
  (length depths ≤ length s1)%nat -> (length depths ≤ length s2)%nat ->
  (length depths ≤ length s3)%nat -> (length depths ≤ length s4)%nat ->
  fractions s1 s2 s3 s4 depths
  = Returned (Spec.V [s1; s2; s3; s4] depths 0, Spec.V [s1; s2; s3; s4] depths 1,
              Spec.V [s1; s2; s3; s4] depths 2, Spec.V [s1; s2; s3; s4] depths 3).
Proof.
  intros H1 H2 H3 H4. rewrite fractions_ok by done.
  rewrite (vertices_ext _ _ depths (sum1_C s1 s2 s3 s4)).
  rewrite (vertices_ext _ _ depths (sum2_C s1 s2 s3 s4)).
  rewrite (vertices_ext _ _ depths (sum3_C s1 s2 s3 s4)).
  rewrite (vertices_ext _ _ depths (sum4_C s1 s2 s3 s4)).
  reflexivity.
Qed.

(** A further non-negative component never lowers the cumulative value. *)
Lemma C_monotone (cs : list (list Qc)) (k i : nat) :
  Forall (Forall (fun x => 0 ≤ x)) cs -> Spec.C cs k i ≤ Spec.C cs (S k) i.
Proof.
  intros Hcs. destruct (cs !! S k) as [s|] eqn:Hs.
  - rewrite (C_S cs k s i Hs).
    assert (Hnonneg : 0 ≤ at_sample s i).
    { unfold at_sample. destruct (s !! i) as [x|] eqn:Hx; simpl; [|done].
      eapply Forall_lookup_1 in Hcs; [|exact Hs].
      by eapply Forall_lookup_1 in Hcs. }
    rewrite <- (Qcplus_0_r (Spec.C cs k i)) at 1.
    by apply Qcplus_le_mono_l.
  - apply lookup_ge_None in Hs. by rewrite C_past_end.
Qed.

(** ** The polygons *)

Ltac qc_eq :=
  vm_compute;
  repeat first
    [ reflexivity
    | apply Qc_is_canon; reflexivity
    | apply (f_equal2 (@cons _)) ].

Lemma polygons_V (s1 s2 s3 s4 depths : list Qc) (minDepth maxDepth : Qc) :
  (length depths ≤ length s1)%nat -> (length depths ≤ length s2)%nat ->
  (length depths ≤ length s3)%nat -> (length depths ≤ length s4)%nat ->
  polygons s1 s2 s3 s4 depths minDepth maxDepth
  = Returned (map (fun k => [Spec.polygon [s1; s2; s3; s4] depths minDepth maxDepth k])
                  (seq 0 4)).
Proof.
  intros H1 H2 H3 H4. unfold polygons. rewrite fractions_V by done. reflexivity.
Qed.

(** C2: for every four component series of the common length of the
    depth sequence, the script's polygon of component k (one vertex list
    wrapped in a list) is the specification's: for k = 0 the anchors
    (0, maxDepth), (0, minDepth) followed by V[0]; for k > 0, V[k-1]
    followed by the reverse of V[k], where V[k][i] pairs the sum of
    components 0..k at sample i with depths[i]. *)
Theorem polygons_match_spec (s1 s2 s3 s4 depths : list Qc) (minDepth maxDepth : Qc)
    (H1 : length s1 = length depths) (H2 : length s2 = length depths)
    (H3 : length s3 = length depths) (H4 : length s4 = length depths) :
  polygons s1 s2 s3 s4 depths minDepth maxDepth
  = Returned (map (fun k => [Spec.polygon [s1; s2; s3; s4] depths minDepth maxDepth k])
                  (seq 0 (length [s1; s2; s3; s4]))).
Proof.
  apply polygons_V; lia.
Qed.

Lemma polygons_match_spec_reference :
  polygons series1 series2 series3 series4 depths5 (dec 0) (dec 4)
  = Returned (map (fun k => [Spec.polygon [series1; series2; series3; series4]
                                          depths5 (dec 0) (dec 4) k])
                  (seq 0 (length [series1; series2; series3; series4]))).
Proof.
  apply (polygons_match_spec series1 series2 series3 series4 depths5
           (dec 0) (dec 4)); reflexivity.
Defined.

Lemma linspace_0_4 : linspace (dec 0) (dec 4) 5 = depths5.
Proof.
  unfold linspace, depths5. simpl.
  repeat (apply (f_equal2 cons); [apply Qc_is_canon; reflexivity|]).
  reflexivity.
Qed.

(** The first polygon depends on the first series only. *)
Lemma polygon1_first_series (s1 s2 s3 s4 depths : list Qc) (minDepth maxDepth : Qc) :
  (length depths ≤ length s1)%nat -> (length depths ≤ length s2)%nat ->
  (length depths ≤ length s3)%nat -> (length depths ≤ length s4)%nat ->
  ∃ rest, polygons s1 s2 s3 s4 depths minDepth maxDepth
          = Returned ([Spec.polygon [s1] depths minDepth maxDepth 0] :: rest).
Proof.
  intros H1 H2 H3 H4. unfold polygons. rewrite fractions_ok by done.
  eexists. simpl. do 5 f_equal.
  apply vertices_ext. intros i. unfold sum1. by rewrite (C_0 [s1] s1).
Qed.

(** C3: for the series [0.292, 0.333, 0.200, 0.458, 0.292], the depths
    [0,1,2,3,4], minDepth 0 and maxDepth 4, [polygon1] of the script
    holds exactly one polygon, with the vertex list [(0,4), (0,0),
    (0.292,0), (0.333,1), (0.200,2), (0.458,3), (0.292,4)]; the
    construction for that single component series (N = 1) yields this one
    polygon. *)
Theorem polygon1_reference :
  (∃ polygon2 polygon3 polygon4,
     polygons series1 series2 series3 series4 depths5 (dec 0) (dec 4)
     = Returned [[reference_polygon1]; polygon2; polygon3; polygon4])
  ∧ (∃ polygon2 polygon3 polygon4,
       script_polygons (dec 0) (dec 4)
       = Returned [[reference_polygon1]; polygon2; polygon3; polygon4])
  ∧ map (Spec.polygon [series1] depths5 (dec 0) (dec 4)) (seq 0 (length [series1]))
    = [reference_polygon1].
Proof.
  assert (Hcode : ∃ polygon2 polygon3 polygon4,
     polygons series1 series2 series3 series4 depths5 (dec 0) (dec 4)
     = Returned [[reference_polygon1]; polygon2; polygon3; polygon4]).
  { exists [Spec.polygon [series1; series2; series3; series4] depths5 (dec 0) (dec 4) 1],
      [Spec.polygon [series1; series2; series3; series4] depths5 (dec 0) (dec 4) 2],
      [Spec.polygon [series1; series2; series3; series4] depths5 (dec 0) (dec 4) 3].
    rewrite polygons_V by (vm_compute; lia).
    simpl. do 3 f_equal. qc_eq. }
  split; [exact Hcode|]. split.
  - unfold script_polygons. rewrite linspace_0_4. exact Hcode.
  - simpl. f_equal. qc_eq.
Qed.

(** ** Series of the wrong length *)

(** Only the first [length depths] samples of a series are read. *)
Lemma fractions_take (s1 s2 s3 s4 depths : list Qc) :
  (length depths ≤ length s1)%nat -> (length depths ≤ length s2)%nat ->
  (length depths ≤ length s3)%nat -> (length depths ≤ length s4)%nat ->
  fractions s1 s2 s3 s4 depths
  = fractions (take (length depths) s1) (take (length depths) s2)
              (take (length depths) s3) (take (length depths) s4) depths.
Proof.
  intros H1 H2 H3 H4.
  rewrite fractions_ok by done.
  rewrite fractions_ok by (rewrite length_take; lia).
  assert (Hat : ∀ s i d, depths !! i = Some d ->
                  at_sample (take (length depths) s) i = at_sample s i).
  { intros s i d Hd. unfold at_sample.
    rewrite lookup_take_lt; [done|]. by eapply lookup_lt_Some. }
  assert (Hv : ∀ g h : nat -> Qc, (∀ i d, depths !! i = Some d -> g i = h i) ->
                vertices g depths = vertices h depths).
  { intros g h Hgh. unfold vertices. apply imap_ext. intros i d Hd.
    by rewrite (Hgh i d Hd). }
  rewrite (Hv (sum1 s1) (sum1 (take (length depths) s1))),
    (Hv (sum2 s1 s2) (sum2 (take (length depths) s1) (take (length depths) s2))),
    (Hv (sum3 s1 s2 s3)
        (sum3 (take (length depths) s1) (take (length depths) s2)
              (take (length depths) s3))),
    (Hv (sum4 s1 s2 s3 s4)
        (sum4 (take (length depths) s1) (take (length depths) s2)
              (take (length depths) s3) (take (length depths) s4)));
    [done|..];
    intros i d Hd; unfold sum1, sum2, sum3, sum4; by rewrite !(Hat _ i d Hd).
Qed.

Lemma polygons_returns (s1 s2 s3 s4 depths : list Qc) (minDepth maxDepth : Qc) :
  Forall (fun s => (length depths ≤ length s)%nat) [s1; s2; s3; s4] ->
  ∃ ps, polygons s1 s2 s3 s4 depths minDepth maxDepth = Returned ps.
Proof.
  rewrite !Forall_cons. intros (? & ? & ? & ? & _).
  unfold polygons. rewrite fractions_ok by done. simpl. eauto.
Qed.

Lemma polygons_raises (s1 s2 s3 s4 depths : list Qc) (minDepth maxDepth : Qc) :
  Exists (fun s => (length s < length depths)%nat) [s1; s2; s3; s4] ->
  polygons s1 s2 s3 s4 depths minDepth maxDepth = Raised IndexError.
Proof.
  rewrite !Exists_cons, Exists_nil. intros Hshort.
  unfold polygons. rewrite fractions_short by tauto. reflexivity.
Qed.

(** C6, as the script behaves: the builder raises exactly when some
    component series is shorter than the depth sequence; what is raised
    is the [IndexError] of the first out-of-range read inside the loop,
    and no polygon list is produced.  When every series is at least as
    long as the depth sequence nothing is raised, also when the lengths
    differ: the samples beyond the depth sequence are not read. *)
Theorem polygons_length_errors (s1 s2 s3 s4 depths : list Qc) (minDepth maxDepth : Qc) :
  (polygons s1 s2 s3 s4 depths minDepth maxDepth = Raised IndexError
   ↔ Exists (fun s => (length s < length depths)%nat) [s1; s2; s3; s4])
  ∧ ((∃ ps, polygons s1 s2 s3 s4 depths minDepth maxDepth = Returned ps)
     ↔ Forall (fun s => (length depths ≤ length s)%nat) [s1; s2; s3; s4])
  ∧ (Forall (fun s => (length depths ≤ length s)%nat) [s1; s2; s3; s4] ->
     polygons s1 s2 s3 s4 depths minDepth maxDepth
     = polygons (take (length depths) s1) (take (length depths) s2)
                (take (length depths) s3) (take (length depths) s4)
                depths minDepth maxDepth).
Proof.
  assert (Hcases :
    Forall (fun s => (length depths ≤ length s)%nat) [s1; s2; s3; s4]
    ∨ Exists (fun s => (length s < length depths)%nat) [s1; s2; s3; s4]).
  { rewrite !Forall_cons, !Exists_cons, Forall_nil, Exists_nil. lia. }
  assert (Hexcl :
    Forall (fun s => (length depths ≤ length s)%nat) [s1; s2; s3; s4] ->
    Exists (fun s => (length s < length depths)%nat) [s1; s2; s3; s4] -> False).
  { rewrite !Forall_cons, !Exists_cons, Forall_nil, Exists_nil. lia. }
  pose proof (polygons_returns s1 s2 s3 s4 depths minDepth maxDepth) as Hok.
  pose proof (polygons_raises s1 s2 s3 s4 depths minDepth maxDepth) as Hbad.
  split; [|split].
  - split; [|exact Hbad]. intros Hraise.
    destruct Hcases as [Hall|Hex]; [|done].
    destruct (Hok Hall) as [ps Hps]. congruence.
  - split; [|exact Hok]. intros [ps Hps].
    destruct Hcases as [Hall|Hex]; [done|].
    rewrite (Hbad Hex) in Hps. discriminate.
  - rewrite !Forall_cons. intros (? & ? & ? & ? & _).
    unfold polygons. by rewrite fractions_take.
Qed.

(** C6 as stated fails: with a first series of six samples against five
    depths the builder returns polygons, and with one of four samples it
    raises [IndexError]; [LengthMismatchError] is raised in neither
    case. *)
Lemma length_mismatch_not_raised :
  length series1_long ≠ length depths5
  ∧ (∃ ps, polygons series1_long series2 series3 series4 depths5 (dec 0) (dec 4)
           = Returned ps)
  ∧ length series1_short ≠ length depths5
  ∧ polygons series1_short series2 series3 series4 depths5 (dec 0) (dec 4)
    ≠ Raised LengthMismatchError.
Proof.
  split; [by vm_compute|]. split.
  - apply polygons_returns.
    repeat (apply Forall_cons; split); try apply Forall_nil; vm_compute; lia.
  - split; [by vm_compute|].
    assert (polygons series1_short series2 series3 series4 depths5 (dec 0) (dec 4)
            = Raised IndexError) as ->; [|discriminate].
    apply polygons_raises. apply Exists_cons_hd. vm_compute. lia.
Qed.

(** C9: when no value of the four component series is negative (and each
    series covers the depth samples), the loop returns the cumulative
    vertex series V[0..3] and, at every sample i, the cumulative values
    do not decrease with the component index:
    C[0][i] <= C[1][i] <= C[2][i] <= C[3][i]. *)
Theorem cumulative_non_decreasing (s1 s2 s3 s4 depths : list Qc)
    (Hnonneg : Forall (Forall (fun x => 0 ≤ x)) [s1; s2; s3; s4])
    (Hlen : Forall (fun s => (length depths ≤ length s)%nat) [s1; s2; s3; s4]) :
  fractions s1 s2 s3 s4 depths
  = Returned (Spec.V [s1; s2; s3; s4] depths 0, Spec.V [s1; s2; s3; s4] depths 1,
              Spec.V [s1; s2; s3; s4] depths 2, Spec.V [s1; s2; s3; s4] depths 3)
  ∧ ∀ k i, Spec.C [s1; s2; s3; s4] k i ≤ Spec.C [s1; s2; s3; s4] (S k) i.
Proof.
  split.
  - revert Hlen. rewrite !Forall_cons. intros (? & ? & ? & ? & _).
    by apply fractions_V.
  - intros k i. by apply C_monotone.
Qed.

Lemma cumulative_non_decreasing_reference :
  fractions series1 series2 series3 series4 depths5
  = Returned (Spec.V [series1; series2; series3; series4] depths5 0,
              Spec.V [series1; series2; series3; series4] depths5 1,
              Spec.V [series1; series2; series3; series4] depths5 2,
              Spec.V [series1; series2; series3; series4] depths5 3)
  ∧ ∀ k i, Spec.C [series1; series2; series3; series4] k i
           ≤ Spec.C [series1; series2; series3; series4] (S k) i.
Proof.
  apply (cumulative_non_decreasing series1 series2 series3 series4 depths5).
  - repeat (apply Forall_cons; split); try apply Forall_nil; by vm_compute.
  - repeat (apply Forall_cons; split); try apply Forall_nil; vm_compute; lia.
Defined.

(** ** The shale-volume column *)

Lemma Qc_min_cases (x y : Qc) :
  (Qc_min x y = x ∧ x ≤ y) ∨ (Qc_min x y = y ∧ y ≤ x).
Proof.
  unfold Qc_min. destruct (decide (x ≤ y)) as [H|H]; [by left|right].
  split; [done|]. by apply Qclt_le_weak, Qcnot_le_lt.
Qed.

Lemma Qc_max_cases (x y : Qc) :
  (Qc_max x y = y ∧ x ≤ y) ∨ (Qc_max x y = x ∧ y ≤ x).
Proof.
  unfold Qc_max. destruct (decide (x ≤ y)) as [H|H]; [by left|right].
  split; [done|]. by apply Qclt_le_weak, Qcnot_le_lt.
Qed.

Lemma series_min_None (s : list cell) (g : Qc) :
  series_min s = None -> Some g ∉ s.
Proof.
  induction s as [|[x|] s IH]; simpl; intros Hm Hg.
  - by apply elem_of_nil in Hg.
  - by destruct (series_min s).
  - apply elem_of_cons in Hg as [?|Hg]; [done|]. by apply IH.
Qed.

Lemma series_max_None (s : list cell) (g : Qc) :
  series_max s = None -> Some g ∉ s.
Proof.
  induction s as [|[x|] s IH]; simpl; intros Hm Hg.
  - by apply elem_of_nil in Hg.
  - by destruct (series_max s).
  - apply elem_of_cons in Hg as [?|Hg]; [done|]. by apply IH.
Qed.

Lemma series_min_lower (s : list cell) (lo g : Qc) :
  series_min s = Some lo -> Some g ∈ s -> lo ≤ g.
Proof.
  revert lo. induction s as [|[x|] s IH]; intros lo Hlo Hg; simpl in Hlo.
  - by apply elem_of_nil in Hg.
  - apply elem_of_cons in Hg.
    destruct (series_min s) as [m|] eqn:Hm; injection Hlo as <-.
    + destruct (Qc_min_cases x m) as [[-> Hxm]|[-> Hmx]], Hg as [[= ->]|Hg].
      * apply Qcle_refl.
      * etrans; [exact Hxm|]. by apply IH.
      * done.
      * by apply IH.
    + destruct Hg as [[= ->]|Hg]; [apply Qcle_refl|].
      by apply (series_min_None s g) in Hm.
  - apply elem_of_cons in Hg as [?|Hg]; [done|]. by apply IH.
Qed.

Lemma series_max_upper (s : list cell) (hi g : Qc) :
  series_max s = Some hi -> Some g ∈ s -> g ≤ hi.
Proof.
  revert hi. induction s as [|[x|] s IH]; intros hi Hhi Hg; simpl in Hhi.
  - by apply elem_of_nil in Hg.
  - apply elem_of_cons in Hg.
    destruct (series_max s) as [m|] eqn:Hm; injection Hhi as <-.
    + destruct (Qc_max_cases x m) as [[-> Hxm]|[-> Hmx]], Hg as [[= ->]|Hg].
      * done.
      * by apply IH.
      * apply Qcle_refl.
      * etrans; [|exact Hmx]. by apply IH.
    + destruct Hg as [[= ->]|Hg]; [apply Qcle_refl|].
      by apply (series_max_None s g) in Hm.
  - apply elem_of_cons in Hg as [?|Hg]; [done|]. by apply IH.
Qed.

Lemma series_min_attained (s : list cell) (lo : Qc) :
  series_min s = Some lo -> Some lo ∈ s.
Proof.
  revert lo. induction s as [|[x|] s IH]; intros lo Hlo; simpl in Hlo.
  - done.
  - destruct (series_min s) as [m|] eqn:Hm; injection Hlo as <-.
    + destruct (Qc_min_cases x m) as [[-> _]|[-> _]].
      * apply elem_of_cons. by left.
      * apply elem_of_cons. right. by apply IH.
    + apply elem_of_cons. by left.
  - apply elem_of_cons. right. by apply IH.
Qed.

Lemma series_max_attained (s : list cell) (hi : Qc) :
  series_max s = Some hi -> Some hi ∈ s.
Proof.
  revert hi. induction s as [|[x|] s IH]; intros hi Hhi; simpl in Hhi.
  - done.
  - destruct (series_max s) as [m|] eqn:Hm; injection Hhi as <-.
    + destruct (Qc_max_cases x m) as [[-> _]|[-> _]].
      * apply elem_of_cons. right. by apply IH.
      * apply elem_of_cons. by left.
    + apply elem_of_cons. by left.
  - apply elem_of_cons. right. by apply IH.
Qed.

(** A quotient [n / d] with [0 <= n <= d] and [0 < d]. *)
Lemma Qcdiv_unit (n d : Qc) :
  0 < d -> 0 ≤ n -> n ≤ d ->
  0 ≤ n / d ∧ n / d ≤ 1 ∧ (n / d = 0 ↔ n = 0) ∧ (n / d = 1 ↔ n = d).
Proof.
  intros Hd Hn Hnd.
  assert (Hd0 : d ≠ 0) by (intros ->; by apply (Qclt_not_eq 0 0)).
  assert (Hmul : n / d * d = n) by (rewrite Qcmult_comm; by apply Qcmult_div_r).
  repeat split.
  - apply (Qcmult_le_mono_pos_r _ _ d Hd). by rewrite Qcmult_0_l, Hmul.
  - apply (Qcmult_le_mono_pos_r _ _ d Hd). by rewrite Qcmult_1_l, Hmul.
  - intros Hq. by rewrite <- Hmul, Hq, Qcmult_0_l.
  - intros ->. unfold Qcdiv. apply Qcmult_0_l.
  - intros Hq. by rewrite <- Hmul, Hq, Qcmult_1_l.
  - intros ->. unfold Qcdiv. by apply Qcmult_inv_r.
Qed.

Lemma Qcminus_0_iff (x y : Qc) : x - y = 0 ↔ x = y.
Proof.
  split; [|intros ->; apply Qcplus_opp_r].
  intros H. apply (inj (fun z => z + - y)). simpl.
  by rewrite Qcplus_opp_r.
Qed.

Lemma Qcminus_nonneg (x y : Qc) : y ≤ x ↔ 0 ≤ x - y.
Proof. apply Qcle_minus_iff. Qed.

Lemma Qcminus_pos (x y : Qc) : y < x ↔ 0 < x - y.
Proof. apply Qclt_minus_iff. Qed.

(** The value computed by line 137 for a row with gamma-ray [g], when
    the column minimum [lo] is below the column maximum [hi]. *)
Lemma Vsh_value (lo hi g : Qc) :
  lo < hi -> lo ≤ g -> g ≤ hi ->
  ∃ v, fdiv (fsub (Some g) (Some lo)) (fsub (Some hi) (Some lo)) = Fin v
       ∧ 0 ≤ v ∧ v ≤ 1 ∧ (v = 0 ↔ g = lo) ∧ (v = 1 ↔ g = hi).
Proof.
  intros Hspread Hlo Hhi. simpl.
  assert (Hd : 0 < hi - lo) by by apply (proj1 (Qcminus_pos hi lo)).
  rewrite decide_False by (intros E; rewrite E in Hd; by apply (Qclt_not_eq 0 0)).
  exists ((g - lo) / (hi - lo)).
  destruct (Qcdiv_unit (g - lo) (hi - lo)) as (H0 & H1 & Hz & Ho); [done|..].
  - by apply (proj1 (Qcminus_nonneg g lo)).
  - unfold Qcminus. by apply (proj1 (Qcplus_le_mono_r g hi (- lo))).
  - repeat split; try done.
    + intros E. by apply Qcminus_0_iff, Hz.
    + intros E. by apply Hz, Qcminus_0_iff.
    + intros E. apply Ho in E. by apply (inj (fun z => z + - lo)) in E.
    + intros ->. by apply Ho.
Qed.

Lemma gr_in_column (t : table) (r : row) (g : Qc) :
  r ∈ t -> gr r = Some g -> Some g ∈ map gr t.
Proof. intros Hr <-. by apply (list_elem_of_fmap_2 gr). Qed.

Lemma elem_of_add_Vsh (t : table) (vr : vrow) :
  vr ∈ add_Vsh t ↔
  ∃ r, r ∈ t ∧ vr = mkVrow r (fdiv (fsub (gr r) (series_min (map gr t)))
                                   (fsub (series_max (map gr t))
                                         (series_min (map gr t)))).
Proof.
  unfold add_Vsh. rewrite list_elem_of_fmap. split.
  - intros (r & -> & Hr). eauto.
  - intros (r & Hr & ->). eauto.
Qed.

(** C4, as the script behaves: when the gamma-ray column has a minimum
    strictly below its maximum (their difference being a finite double),
    every row with a gamma-ray value gets a Vsh in [0,1]; every row
    holding the minimum gets 0 and every row holding the maximum gets 1,
    so at least one row attains each, several when the extreme value is
    tied; a row without a gamma-ray value gets NaN. *)
Theorem Vsh_unit_interval (t : table) (lo hi : Qc)
    (Hmin : series_min (map gr t) = Some lo)
    (Hmax : series_max (map gr t) = Some hi)
    (Hspread : lo < hi)
    (Hrange : hi - lo ≤ max_double) :
  ∃ vs, deriveShaleFraction t = Returned vs
    ∧ map logs vs = t
    ∧ (∀ vr, vr ∈ vs ->
         match gr (logs vr) with
         | Some g => ∃ v, Vsh vr = Fin v ∧ 0 ≤ v ∧ v ≤ 1
                          ∧ (g = lo -> v = 0) ∧ (g = hi -> v = 1)
         | None => Vsh vr = NaN
         end)
    ∧ (∃ vr, vr ∈ vs ∧ gr (logs vr) = Some lo ∧ Vsh vr = Fin 0)
    ∧ (∃ vr, vr ∈ vs ∧ gr (logs vr) = Some hi ∧ Vsh vr = Fin 1).
Proof.
  exists (add_Vsh t). split; [reflexivity|].
  assert (Hrow : ∀ r g, r ∈ t -> gr r = Some g ->
            ∃ v, fdiv (fsub (gr r) (Some lo)) (fsub (Some hi) (Some lo)) = Fin v
                 ∧ 0 ≤ v ∧ v ≤ 1 ∧ (g = lo -> v = 0) ∧ (g = hi -> v = 1)).
  { intros r g Hr Hg. rewrite Hg.
    destruct (Vsh_value lo hi g) as (v & Hv & H0 & H1 & Hz & Ho); [done|..].
    - eapply series_min_lower; [exact Hmin|]. by eapply gr_in_column.
    - eapply series_max_upper; [exact Hmax|]. by eapply gr_in_column.
    - exists v. repeat apply conj; [done..| |].
      + intros Hg0. by apply Hz.
      + intros Hg1. by apply Ho. }
  split; [|split; [|split]].
  - unfold add_Vsh. rewrite map_map. simpl. apply map_id.
  - intros vr Hvr. apply elem_of_add_Vsh in Hvr as (r & Hr & ->).
    rewrite Hmin, Hmax. simpl. destruct (gr r) as [g|] eqn:Hg; [|done].
    destruct (Hrow r g Hr Hg) as (v & Hv & ?). rewrite Hg in Hv. by exists v.
  - pose proof (series_min_attained _ _ Hmin) as Hin.
    apply list_elem_of_fmap in Hin as (r & Hg & Hr).
    symmetry in Hg. destruct (Hrow r lo Hr Hg) as (v & Hv & _ & _ & Hz & _).
    eexists. split; [apply elem_of_add_Vsh; eauto|]. simpl.
    split; [done|]. rewrite Hmin, Hmax. rewrite Hv. f_equal. by apply Hz.
  - pose proof (series_max_attained _ _ Hmax) as Hin.
    apply list_elem_of_fmap in Hin as (r & Hg & Hr).
    symmetry in Hg. destruct (Hrow r hi Hr Hg) as (v & Hv & _ & _ & _ & Ho).
    eexists. split; [apply elem_of_add_Vsh; eauto|]. simpl.
    split; [done|]. rewrite Hmin, Hmax. rewrite Hv. f_equal. by apply Ho.
Qed.

Lemma Vsh_unit_interval_tied :
  ∃ vs, deriveShaleFraction tied_rows = Returned vs
    ∧ map logs vs = tied_rows
    ∧ (∀ vr, vr ∈ vs ->
         match gr (logs vr) with
         | Some g => ∃ v, Vsh vr = Fin v ∧ 0 ≤ v ∧ v ≤ 1
                          ∧ (g = dec 10 -> v = 0) ∧ (g = dec 20 -> v = 1)
         | None => Vsh vr = NaN
         end)
    ∧ (∃ vr, vr ∈ vs ∧ gr (logs vr) = Some (dec 10) ∧ Vsh vr = Fin 0)
    ∧ (∃ vr, vr ∈ vs ∧ gr (logs vr) = Some (dec 20) ∧ Vsh vr = Fin 1).
Proof.
  apply (Vsh_unit_interval tied_rows (dec 10) (dec 20));
    [reflexivity | reflexivity | by vm_compute | by vm_compute].
Defined.

(** C4 as stated fails: with the minimum gamma-ray value on two rows,
    two rows get Vsh = 0; on a one-row table the only Vsh is NaN. *)
Lemma unit_interval_once_fails :
  ¬ unit_interval_once tied_rows ∧ ¬ unit_interval_once one_row.
Proof.
  split; intros H.
  - destruct (H ltac:(discriminate)) as (vs & Hvs & _ & Hzero & _).
    injection Hvs as <-. vm_compute in Hzero. discriminate.
  - destruct (H ltac:(discriminate)) as (vs & Hvs & Hrange & _).
    injection Hvs as <-.
    destruct (Hrange (mkVrow (gr_row (dec 100) (dec 10)) NaN)) as (v & Hv & _).
    + vm_compute. apply list_elem_of_here.
    + discriminate.
Qed.

(** C5, as the script behaves: on a table with zero rows line 137 raises
    nothing; the result is the table with its new, empty, Vsh column. *)
Theorem deriveShaleFraction_empty :
  deriveShaleFraction [] = Returned [].
Proof. reflexivity. Qed.

(** C5 as stated fails: no [EmptyTableError] on the empty table. *)
Lemma empty_table_no_error :
  deriveShaleFraction [] ≠ Raised EmptyTableError.
Proof. discriminate. Qed.

(** C10: when the maximum of the gamma-ray column equals its minimum,
    the divisor [max - min] of line 137 is zero; nothing is raised and
    the Vsh column is produced, NaN on every row. *)
Theorem Vsh_zero_spread (t : table) (m : Qc)
    (Hmin : series_min (map gr t) = Some m)
    (Hmax : series_max (map gr t) = Some m) :
  fsub (series_max (map gr t)) (series_min (map gr t)) = Some 0
  ∧ deriveShaleFraction t = Returned (map (fun r => mkVrow r NaN) t).
Proof.
  split.
  - rewrite Hmin, Hmax. simpl. f_equal. apply Qcplus_opp_r.
  - unfold deriveShaleFraction, add_Vsh. f_equal.
    apply map_ext_in. intros r Hr. apply list_elem_of_In in Hr.
    rewrite Hmin, Hmax. f_equal.
    destruct (gr r) as [g|] eqn:Hg; [|done].
    assert (g = m) as ->.
    { apply Qcle_antisym.
      - eapply series_max_upper; [exact Hmax|]. by eapply gr_in_column.
      - eapply series_min_lower; [exact Hmin|]. by eapply gr_in_column. }
    simpl. assert (m - m = 0) as -> by apply Qcplus_opp_r.
    by rewrite !decide_True.
Qed.

Lemma Vsh_zero_spread_constant :
  (fsub (series_max (map gr one_row)) (series_min (map gr one_row)) = Some 0
   ∧ deriveShaleFraction one_row = Returned (map (fun r => mkVrow r NaN) one_row))
  ∧ (fsub (series_max (map gr constant_rows)) (series_min (map gr constant_rows))
     = Some 0
     ∧ deriveShaleFraction constant_rows
       = Returned (map (fun r => mkVrow r NaN) constant_rows)).
Proof.
  split.
  - apply (Vsh_zero_spread one_row (dec 10)); reflexivity.
  - apply (Vsh_zero_spread constant_rows (dec 45)); reflexivity.
Defined.

(** * Further properties of the fraction polygons *)

Lemma polygons_fractions (s1 s2 s3 s4 depths : list Qc) (minDepth maxDepth : Qc) :
  Forall (fun s => (length depths ≤ length s)%nat) [s1; s2; s3; s4] ->
  polygons s1 s2 s3 s4 depths minDepth maxDepth
  = Returned
      [ [ [[0; maxDepth]; [0; minDepth]] ++ vertices (sum1 s1) depths ];
        [ vertices (sum1 s1) depths ++ reverse (vertices (sum2 s1 s2) depths) ];
        [ vertices (sum2 s1 s2) depths ++ reverse (vertices (sum3 s1 s2 s3) depths) ];
        [ vertices (sum3 s1 s2 s3) depths
          ++ reverse (vertices (sum4 s1 s2 s3 s4) depths) ] ].
Proof.
  rewrite !Forall_cons. intros (? & ? & ? & ? & _).
  unfold polygons. rewrite fractions_ok by done. reflexivity.
Qed.

Lemma vertices_pairs (g : nat -> Qc) (depths : list Qc) :
  Forall (fun v : point => length v = 2%nat) (vertices g depths).
Proof.
  apply Forall_lookup. intros i v Hv. unfold vertices in Hv.
  rewrite list_lookup_imap in Hv.
  destruct (depths !! i) as [d|]; simpl in Hv; [|done].
  by injection Hv as <-.
Qed.

(** X1: when every series covers the depth samples, the builder returns four
    one-element lists; the first polygon has two anchor vertices and one
    vertex per depth sample, each of the others two vertices per depth
    sample, and every vertex is a [[value, depth]] pair: no placeholder
    [[]] of line 343 is left. *)
Theorem polygons_shape (s1 s2 s3 s4 depths : list Qc) (minDepth maxDepth : Qc)
    (Hlen : Forall (fun s => (length depths ≤ length s)%nat) [s1; s2; s3; s4]) :
  ∃ p1 p2 p3 p4 : list point,
    polygons s1 s2 s3 s4 depths minDepth maxDepth
    = Returned [[p1]; [p2]; [p3]; [p4]]
    ∧ length p1 = (length depths + 2)%nat
    ∧ length p2 = (2 * length depths)%nat
    ∧ length p3 = (2 * length depths)%nat
    ∧ length p4 = (2 * length depths)%nat
    ∧ Forall (fun v : point => length v = 2%nat) (p1 ++ p2 ++ p3 ++ p4).
Proof.
  do 4 eexists. split; [by apply polygons_fractions|].
  repeat apply conj.
  - rewrite length_app, length_vertices. simpl. lia.
  - rewrite length_app, length_reverse, !length_vertices. lia.
  - rewrite length_app, length_reverse, !length_vertices. lia.
  - rewrite length_app, length_reverse, !length_vertices. lia.
  - rewrite !Forall_app, !Forall_reverse, !Forall_cons.
    repeat apply conj;
      first [reflexivity | apply vertices_pairs | apply Forall_nil_2].
Qed.

Lemma polygons_shape_reference :
  ∃ p1 p2 p3 p4 : list point,
    polygons series1 series2 series3 series4 depths5 (dec 0) (dec 4)
    = Returned [[p1]; [p2]; [p3]; [p4]]
    ∧ length p1 = (length depths5 + 2)%nat
    ∧ length p2 = (2 * length depths5)%nat
    ∧ length p3 = (2 * length depths5)%nat
    ∧ length p4 = (2 * length depths5)%nat
    ∧ Forall (fun v : point => length v = 2%nat) (p1 ++ p2 ++ p3 ++ p4).
Proof.
  apply (polygons_shape series1 series2 series3 series4 depths5 (dec 0) (dec 4)).
  repeat (apply Forall_cons; split); try apply Forall_nil; vm_compute; lia.
Defined.

(** X2: neighbouring polygons share a boundary: the first polygon is the two
    anchors followed by the lower boundary of the second, and the upper
    boundary of polygon k, which it traverses backwards, is the lower
    boundary that polygon k+1 traverses forwards. *)
Theorem polygons_share_boundaries (s1 s2 s3 s4 depths : list Qc)
    (minDepth maxDepth : Qc)
    (Hlen : Forall (fun s => (length depths ≤ length s)%nat) [s1; s2; s3; s4]) :
  ∃ p1 p2 p3 p4 : list point,
    polygons s1 s2 s3 s4 depths minDepth maxDepth
    = Returned [[p1]; [p2]; [p3]; [p4]]
    ∧ take 2 p1 = [[0; maxDepth]; [0; minDepth]]
    ∧ drop 2 p1 = take (length depths) p2
    ∧ drop (length depths) p2 = reverse (take (length depths) p3)
    ∧ drop (length depths) p3 = reverse (take (length depths) p4).
Proof.
  do 4 eexists. split; [by apply polygons_fractions|].
  repeat apply conj.
  - reflexivity.
  - by rewrite take_app_length' by (by rewrite length_vertices).
  - rewrite take_app_length', drop_app_length' by (by rewrite length_vertices).
    done.
  - rewrite take_app_length', drop_app_length' by (by rewrite length_vertices).
    done.
Qed.

Lemma polygons_share_boundaries_reference :
  ∃ p1 p2 p3 p4 : list point,
    polygons series1 series2 series3 series4 depths5 (dec 0) (dec 4)
    = Returned [[p1]; [p2]; [p3]; [p4]]
    ∧ take 2 p1 = [[0; dec 4]; [0; dec 0]]
    ∧ drop 2 p1 = take (length depths5) p2
    ∧ drop (length depths5) p2 = reverse (take (length depths5) p3)
    ∧ drop (length depths5) p3 = reverse (take (length depths5) p4).
Proof.
  apply (polygons_share_boundaries series1 series2 series3 series4 depths5
           (dec 0) (dec 4)).
  repeat (apply Forall_cons; split); try apply Forall_nil; vm_compute; lia.
Defined.

Lemma vertices_Forall (P : point -> Prop) (g : nat -> Qc) (depths : list Qc) :
  (∀ i d, depths !! i = Some d -> P [g i; d]) -> Forall P (vertices g depths).
Proof.
  intros HP. apply Forall_lookup. intros i v Hv. unfold vertices in Hv.
  rewrite list_lookup_imap in Hv.
  destruct (depths !! i) as [d|] eqn:Hd; simpl in Hv; [|done].
  injection Hv as <-. by apply HP.
Qed.

Lemma at_sample_nonneg (s : list Qc) (i : nat) :
  Forall (fun x => 0 ≤ x) s -> 0 ≤ at_sample s i.
Proof.
  intros Hs. unfold at_sample. destruct (s !! i) as [x|] eqn:Hx; simpl; [|done].
  by eapply Forall_lookup_1 in Hs.
Qed.

(** With non-negative series the four running sums are ordered. *)
Lemma sums_ordered (s1 s2 s3 s4 : list Qc) (i : nat) :
  Forall (Forall (fun x => 0 ≤ x)) [s1; s2; s3; s4] ->
  0 ≤ sum1 s1 i ∧ sum1 s1 i ≤ sum2 s1 s2 i
  ∧ sum2 s1 s2 i ≤ sum3 s1 s2 s3 i ∧ sum3 s1 s2 s3 i ≤ sum4 s1 s2 s3 s4 i.
Proof.
  intros Hnonneg.
  rewrite (sum1_C s1 s2 s3 s4), (sum2_C s1 s2 s3 s4),
    (sum3_C s1 s2 s3 s4), (sum4_C s1 s2 s3 s4).
  repeat apply conj; try by apply C_monotone.
  rewrite <- (sum1_C s1 s2 s3 s4). unfold sum1. apply at_sample_nonneg.
  by apply Forall_cons in Hnonneg as [? _].
Qed.

Lemma sums_in_unit (s1 s2 s3 s4 : list Qc) (i : nat) :
  Forall (Forall (fun x => 0 ≤ x)) [s1; s2; s3; s4] ->
  sum4 s1 s2 s3 s4 i ≤ 1 ->
  (0 ≤ sum1 s1 i ∧ sum1 s1 i ≤ 1)
  ∧ (0 ≤ sum2 s1 s2 i ∧ sum2 s1 s2 i ≤ 1)
  ∧ (0 ≤ sum3 s1 s2 s3 i ∧ sum3 s1 s2 s3 i ≤ 1)
  ∧ (0 ≤ sum4 s1 s2 s3 s4 i ∧ sum4 s1 s2 s3 s4 i ≤ 1).
Proof.
  intros Hnonneg H41.
  destruct (sums_ordered s1 s2 s3 s4 i Hnonneg) as (H01 & H12 & H23 & H34).
  pose proof (Qcle_trans _ _ _ H01 H12) as H02.
  pose proof (Qcle_trans _ _ _ H02 H23) as H03.
  pose proof (Qcle_trans _ _ _ H03 H34) as H04.
  pose proof (Qcle_trans _ _ _ H34 H41) as H31.
  pose proof (Qcle_trans _ _ _ H23 H31) as H21.
  pose proof (Qcle_trans _ _ _ H12 H21) as H11.
  done.
Qed.

(** X3: when no series value is negative and the four values of every depth
    sample add up to at most 1, every vertex of every polygon has its
    value within the plotted range [0, 1]. *)
Theorem polygons_within_unit_range (s1 s2 s3 s4 depths : list Qc)
    (minDepth maxDepth : Qc)
    (Hnonneg : Forall (Forall (fun x => 0 ≤ x)) [s1; s2; s3; s4])
    (Hlen : Forall (fun s => (length depths ≤ length s)%nat) [s1; s2; s3; s4])
    (Hsum : ∀ i, (i < length depths)%nat -> sum4 s1 s2 s3 s4 i ≤ 1) :
  ∃ ps, polygons s1 s2 s3 s4 depths minDepth maxDepth = Returned ps
        ∧ Forall (Forall (Forall in_unit_range)) ps.
Proof.
  eexists. split; [by apply polygons_fractions|].
  assert (Hv : ∀ g : nat -> Qc,
            (∀ i, (i < length depths)%nat -> 0 ≤ g i ∧ g i ≤ 1) ->
            Forall in_unit_range (vertices g depths)).
  { intros g Hg. apply vertices_Forall. intros i d Hd.
    exists (g i), d. split; [done|]. apply Hg. by eapply lookup_lt_Some. }
  assert (Hs : ∀ i, (i < length depths)%nat ->
            (0 ≤ sum1 s1 i ∧ sum1 s1 i ≤ 1)
            ∧ (0 ≤ sum2 s1 s2 i ∧ sum2 s1 s2 i ≤ 1)
            ∧ (0 ≤ sum3 s1 s2 s3 i ∧ sum3 s1 s2 s3 i ≤ 1)
            ∧ (0 ≤ sum4 s1 s2 s3 s4 i ∧ sum4 s1 s2 s3 s4 i ≤ 1)).
  { intros i Hi. by apply sums_in_unit, Hsum. }
  assert (H1 : Forall in_unit_range (vertices (sum1 s1) depths)).
  { apply Hv. intros i Hi. apply (Hs i Hi). }
  assert (H2 : Forall in_unit_range (vertices (sum2 s1 s2) depths)).
  { apply Hv. intros i Hi. apply (Hs i Hi). }
  assert (H3 : Forall in_unit_range (vertices (sum3 s1 s2 s3) depths)).
  { apply Hv. intros i Hi. apply (Hs i Hi). }
  assert (H4 : Forall in_unit_range (vertices (sum4 s1 s2 s3 s4) depths)).
  { apply Hv. intros i Hi. apply (Hs i Hi). }
  assert (Hanchor : ∀ d, in_unit_range [0; d]).
  { intros d. exists 0, d. by repeat split. }
  repeat (apply Forall_cons; split); try apply Forall_nil_2;
    rewrite ?Forall_app, ?Forall_reverse; repeat apply conj; done.
Qed.

Lemma polygons_within_unit_range_reference :
  ∃ ps, polygons series1 series2 series3 series4 depths5 (dec 0) (dec 4)
        = Returned ps
        ∧ Forall (Forall (Forall in_unit_range)) ps.
Proof.
  apply (polygons_within_unit_range series1 series2 series3 series4 depths5
           (dec 0) (dec 4)).
  - repeat (apply Forall_cons; split); try apply Forall_nil; by vm_compute.
  - repeat (apply Forall_cons; split); try apply Forall_nil; vm_compute; lia.
  - intros i Hi. do 5 (destruct i as [|i]; [by vm_compute|]).
    vm_compute in Hi. lia.
Defined.



(** * The depth samples *)

Lemma linspace_length (start stop : Qc) (num : nat) :
  length (linspace start stop num) = num.
Proof.
  destruct num as [|[|d]]; simpl; [done..|].
  rewrite length_app, length_map, length_seq. simpl. lia.
Qed.

Lemma linspace_lookup_lt (start stop : Qc) (d i : nat) :
  (i < S d)%nat ->
  linspace start stop (S (S d)) !! i
  = Some (Qc_of_Z (Z.of_nat i)
          * ((stop - start) / Qc_of_Z (Z.of_nat (S d))) + start).
Proof.
  intros Hi. unfold linspace.
  rewrite lookup_app_l by (rewrite length_map, length_seq; lia).
  change (map ?f ?l) with (f <$> l).
  rewrite list_lookup_fmap, lookup_seq_lt by lia. reflexivity.
Qed.

Lemma linspace_lookup_last (start stop : Qc) (d : nat) :
  linspace start stop (S (S d)) !! S d = Some stop.
Proof.
  unfold linspace.
  rewrite lookup_app_r by (rewrite length_map, length_seq; lia).
  rewrite length_map, length_seq, Nat.sub_diag. reflexivity.
Qed.

Lemma linspace_step_nonneg (start stop : Qc) (d : nat) :
  start ≤ stop -> 0 ≤ (stop - start) / Qc_of_Z (Z.of_nat (S d)).
Proof.
  intros Hle. unfold Qcdiv. apply Qcmult_nonneg_nonneg.
  - by apply (proj1 (Qcminus_nonneg stop start)).
  - apply Qclt_le_weak, Qcinv_pos. rewrite <- Z2Qc_inj_0.
    apply (proj1 (Z2Qc_inj_lt _ _)). lia.
Qed.

Lemma linspace_non_decreasing (start stop : Qc) (num : nat) :
  start ≤ stop -> non_decreasing (linspace start stop num).
Proof.
  intros Hle i x y Hx Hy.
  destruct num as [|[|d]]; [done| by destruct i |].
  pose proof (lookup_lt_Some _ _ _ Hy) as Hi. rewrite linspace_length in Hi.
  pose proof (linspace_step_nonneg start stop d Hle) as Hstep.
  rewrite linspace_lookup_lt in Hx by lia. injection Hx as <-.
  destruct (decide (S i = S d)) as [Hlast|Hmid].
  - rewrite Hlast, linspace_lookup_last in Hy. injection Hy as <-.
    assert (Hfull : Qc_of_Z (Z.of_nat (S d))
                    * ((stop - start) / Qc_of_Z (Z.of_nat (S d)))
                    = stop - start).
    { apply Qcmult_div_r. rewrite <- Z2Qc_inj_0. intros E.
      apply Z2Qc_inj in E. lia. }
    trans (Qc_of_Z (Z.of_nat (S d))
           * ((stop - start) / Qc_of_Z (Z.of_nat (S d))) + start).
    + apply (proj1 (Qcplus_le_mono_r _ _ start)).
      apply Qcmult_le_mono_nonneg_r; [done|].
      apply (proj1 (Z2Qc_inj_le _ _)). lia.
    + rewrite Hfull. unfold Qcminus.
      rewrite <- Qcplus_assoc, (Qcplus_comm (- start)), Qcplus_opp_r, Qcplus_0_r.
      apply Qcle_refl.
  - rewrite linspace_lookup_lt in Hy by lia. injection Hy as <-.
    apply (proj1 (Qcplus_le_mono_r _ _ start)).
    apply Qcmult_le_mono_nonneg_r; [done|].
    apply (proj1 (Z2Qc_inj_le _ _)). lia.
Qed.

(** X5: the five depth samples of line 328, [np.linspace(start, stop, 5)]
    with [start <= stop] and a range that is a finite double: there are
    exactly five, the first is [start], the last is [stop], and no sample
    is smaller than the one before it. *)
Theorem linspace_samples (start stop : Qc)
    (Horder : start ≤ stop) (Hrange : stop - start ≤ max_double) :
  length (linspace start stop 5) = 5%nat
  ∧ head (linspace start stop 5) = Some start
  ∧ last (linspace start stop 5) = Some stop
  ∧ non_decreasing (linspace start stop 5).
Proof.
  split; [apply linspace_length|]. split; [|split].
  - rewrite head_lookup, (linspace_lookup_lt start stop 3 0) by lia. f_equal.
    change (Z.of_nat 0) with 0%Z.
    by rewrite Z2Qc_inj_0, Qcmult_0_l, Qcplus_0_l.
  - rewrite last_lookup, linspace_length. apply (linspace_lookup_last start stop 3).
  - by apply linspace_non_decreasing.
Qed.

Lemma linspace_samples_reference :
  length (linspace (dec 0) (dec 4) 5) = 5%nat
  ∧ head (linspace (dec 0) (dec 4) 5) = Some (dec 0)
  ∧ last (linspace (dec 0) (dec 4) 5) = Some (dec 4)
  ∧ non_decreasing (linspace (dec 0) (dec 4) 5).
Proof. apply (linspace_samples (dec 0) (dec 4)); by vm_compute. Defined.

Lemma series_min_is_Some (s : list cell) (g : Qc) :
  Some g ∈ s -> is_Some (series_min s).
Proof.
  intros Hg. destruct (series_min s) eqn:Hm; [done|].
  by apply (series_min_None s g) in Hm.
Qed.

Lemma series_max_is_Some (s : list cell) (g : Qc) :
  Some g ∈ s -> is_Some (series_max s).
Proof.
  intros Hg. destruct (series_max s) eqn:Hm; [done|].
  by apply (series_max_None s g) in Hm.
Qed.

Lemma series_min_le_max (s : list cell) (lo hi : Qc) :
  series_min s = Some lo -> series_max s = Some hi -> lo ≤ hi.
Proof.
  intros Hlo Hhi. eapply series_max_upper; [exact Hhi|].
  by apply series_min_attained.
Qed.

(** X6: for a table with at least one row, lines 322-328 give a shallowest
    depth no greater than the deepest one, and every row's depth lies
    between them; the last of the five depth samples is the deepest
    depth, and when the depth range is a finite double the first sample
    is the shallowest depth and no sample is smaller than the one before
    it. *)
Theorem depth_samples_ordered (df_idx : list vrow) (Hrows : df_idx ≠ []) :
  ∃ min_depth max_depth,
    Depth_min df_idx = Some min_depth
    ∧ Depth_max df_idx = Some max_depth
    ∧ min_depth ≤ max_depth
    ∧ (∀ vr, vr ∈ df_idx ->
         min_depth ≤ Depth (logs vr) ∧ Depth (logs vr) ≤ max_depth)
    ∧ last (linspace min_depth max_depth 5) = Some max_depth
    ∧ (max_depth - min_depth ≤ max_double ->
       head (linspace min_depth max_depth 5) = Some min_depth
       ∧ non_decreasing (linspace min_depth max_depth 5)).
Proof.
  destruct df_idx as [|vr0 rest]; [done|].
  set (ds := map (fun vr => Some (Depth (logs vr))) (vr0 :: rest)).
  assert (H0 : Some (Depth (logs vr0)) ∈ ds) by apply list_elem_of_here.
  destruct (series_min_is_Some ds _ H0) as [a Ha].
  destruct (series_max_is_Some ds _ H0) as [b Hb].
  pose proof (series_min_le_max ds a b Ha Hb) as Hab.
  exists a, b. unfold Depth_min, Depth_max. fold ds.
  split; [done|]. split; [done|]. split; [done|]. split; [|split].
  - intros vr Hvr.
    assert (Hin : Some (Depth (logs vr)) ∈ ds).
    { unfold ds. by apply (list_elem_of_fmap_2 (fun vr => Some (Depth (logs vr)))). }
    split; [by eapply series_min_lower|by eapply series_max_upper].
  - rewrite last_lookup, linspace_length. apply (linspace_lookup_last a b 3).
  - intros _. split.
    + rewrite head_lookup, (linspace_lookup_lt a b 3 0) by lia. f_equal.
      change (Z.of_nat 0) with 0%Z.
      by rewrite Z2Qc_inj_0, Qcmult_0_l, Qcplus_0_l.
    + by apply linspace_non_decreasing.
Qed.

Lemma depth_samples_ordered_two_rows :
  ∃ min_depth max_depth,
    Depth_min two_depths = Some min_depth
    ∧ Depth_max two_depths = Some max_depth
    ∧ min_depth ≤ max_depth
    ∧ (∀ vr, vr ∈ two_depths ->
         min_depth ≤ Depth (logs vr) ∧ Depth (logs vr) ≤ max_depth)
    ∧ last (linspace min_depth max_depth 5) = Some max_depth
    ∧ (max_depth - min_depth ≤ max_double ->
       head (linspace min_depth max_depth 5) = Some min_depth
       ∧ non_decreasing (linspace min_depth max_depth 5)).
Proof. apply (depth_samples_ordered two_depths). discriminate. Defined.

(** X7: whatever the depth range, the script's own four series (five samples
    each, against five depth samples) are turned into four polygons
    without an error: seven vertices for the first, ten for the others. *)
Theorem script_polygons_returns (min_depth max_depth : Qc) :
  ∃ p1 p2 p3 p4 : list point,
    script_polygons min_depth max_depth = Returned [[p1]; [p2]; [p3]; [p4]]
    ∧ take 2 p1 = [[0; max_depth]; [0; min_depth]]
    ∧ length p1 = 7%nat ∧ length p2 = 10%nat
    ∧ length p3 = 10%nat ∧ length p4 = 10%nat.
Proof.
  unfold script_polygons.
  assert (Hlen : length (linspace min_depth max_depth 5) = 5%nat)
    by apply linspace_length.
  do 4 eexists. split.
  - apply polygons_fractions. rewrite Hlen.
    repeat (apply Forall_cons; split); try apply Forall_nil; vm_compute; lia.
  - repeat apply conj; [reflexivity|..];
      rewrite length_app, ?length_reverse, !length_vertices, Hlen; reflexivity.
Qed.

(** * Further properties of the shale-volume column *)

Lemma Vsh_formula (lo hi g : Qc) :
  lo < hi ->
  fdiv (fsub (Some g) (Some lo)) (fsub (Some hi) (Some lo))
  = Fin ((g - lo) / (hi - lo)).
Proof.
  intros Hspread. simpl.
  assert (Hd : 0 < hi - lo) by by apply (proj1 (Qcminus_pos hi lo)).
  by rewrite decide_False
    by (intros E; rewrite E in Hd; by apply (Qclt_not_eq 0 0)).
Qed.

Lemma Vsh_no_spread (m g : Qc) :
  m ≤ g -> g ≤ m ->
  fdiv (fsub (Some g) (Some m)) (fsub (Some m) (Some m)) = NaN.
Proof.
  intros H1 H2. assert (g = m) as -> by by apply Qcle_antisym.
  simpl. assert (m - m = 0) as -> by apply Qcplus_opp_r.
  by rewrite !decide_True.
Qed.

(** The value line 137 gives a row is NaN or a number of [0, 1]. *)
Lemma Vsh_row_value (t : table) (r : row) :
  r ∈ t ->
  let x := fdiv (fsub (gr r) (series_min (map gr t)))
                (fsub (series_max (map gr t)) (series_min (map gr t))) in
  x = NaN ∨ unit_value x.
Proof.
  intros Hr x. subst x.
  destruct (gr r) as [g|] eqn:Hg; [|by left].
  pose proof (gr_in_column t r g Hr Hg) as Hin.
  destruct (series_min_is_Some _ _ Hin) as [lo Hlo].
  destruct (series_max_is_Some _ _ Hin) as [hi Hhi].
  rewrite Hlo, Hhi.
  pose proof (series_min_lower _ _ _ Hlo Hin) as Hlg.
  pose proof (series_max_upper _ _ _ Hhi Hin) as Hgh.
  assert (Hlh : lo ≤ hi) by by etrans.
  destruct (Qcle_lt_or_eq lo hi Hlh) as [Hlt|Heq].
  - right. destruct (Vsh_value lo hi g Hlt Hlg Hgh) as (v & Hv & ? & ? & _).
    by exists v.
  - left. subst hi. by apply Vsh_no_spread.
Qed.

(** X8: the Vsh column never holds an infinity, whatever the table: every
    value is NaN or a number between 0 and 1 inclusive. *)
Theorem Vsh_never_infinite (t : table) :
  ∃ vs, deriveShaleFraction t = Returned vs
        ∧ Forall (fun vr => Vsh vr = NaN ∨ unit_value (Vsh vr)) vs.
Proof.
  exists (add_Vsh t). split; [reflexivity|].
  apply Forall_forall. intros vr Hvr.
  apply elem_of_add_Vsh in Hvr as (r & Hr & ->). simpl.
  by apply Vsh_row_value.
Qed.

(** X9: when the gamma-ray column has a minimum below its maximum (their
    difference being a finite double), Vsh never reverses the order of
    the gamma-ray values: of two rows, the one with the smaller or equal
    GR has the smaller or equal Vsh, so a strictly larger Vsh comes from
    a strictly larger GR. *)
Theorem Vsh_preserves_order (t : table) (lo hi : Qc)
    (Hmin : series_min (map gr t) = Some lo)
    (Hmax : series_max (map gr t) = Some hi)
    (Hspread : lo < hi)
    (Hrange : hi - lo ≤ max_double) :
  ∃ vs, deriveShaleFraction t = Returned vs
        ∧ ∀ vr1 vr2 g1 g2,
            vr1 ∈ vs -> vr2 ∈ vs ->
            gr (logs vr1) = Some g1 -> gr (logs vr2) = Some g2 ->
            ∃ v1 v2, Vsh vr1 = Fin v1 ∧ Vsh vr2 = Fin v2
                     ∧ (g1 ≤ g2 -> v1 ≤ v2) ∧ (v1 < v2 -> g1 < g2).
Proof.
  exists (add_Vsh t). split; [reflexivity|].
  intros vr1 vr2 g1 g2 H1 H2 Hg1 Hg2.
  apply elem_of_add_Vsh in H1 as (r1 & Hr1 & ->).
  apply elem_of_add_Vsh in H2 as (r2 & Hr2 & ->).
  simpl in *. rewrite Hmin, Hmax, Hg1, Hg2, !Vsh_formula by done.
  do 2 eexists. split; [reflexivity|]. split; [reflexivity|].
  assert (Hd : 0 < hi - lo) by by apply (proj1 (Qcminus_pos hi lo)).
  assert (Hd0 : hi - lo ≠ 0)
    by (intros E; rewrite E in Hd; by apply (Qclt_not_eq 0 0)).
  assert (Hle : ∀ a b : Qc, a ≤ b -> (a - lo) / (hi - lo) ≤ (b - lo) / (hi - lo)).
  { intros a b Hab.
    apply (Qcmult_le_mono_pos_r ((a - lo) / (hi - lo)) _ (hi - lo) Hd).
    rewrite (Qcmult_comm ((a - lo) / (hi - lo))),
      (Qcmult_comm ((b - lo) / (hi - lo))), !Qcmult_div_r by done.
    unfold Qcminus. by apply (proj1 (Qcplus_le_mono_r a b (- lo))). }
  split; [apply Hle|].
  intros Hlt. apply Qcnot_le_lt. intros Hge.
  by apply (Qclt_not_le _ _ Hlt), Hle.
Qed.

Lemma Vsh_preserves_order_tied :
  ∃ vs, deriveShaleFraction tied_rows = Returned vs
        ∧ ∀ vr1 vr2 g1 g2,
            vr1 ∈ vs -> vr2 ∈ vs ->
            gr (logs vr1) = Some g1 -> gr (logs vr2) = Some g2 ->
            ∃ v1 v2, Vsh vr1 = Fin v1 ∧ Vsh vr2 = Fin v2
                     ∧ (g1 ≤ g2 -> v1 ≤ v2) ∧ (v1 < v2 -> g1 < g2).
Proof.
  apply (Vsh_preserves_order tied_rows (dec 10) (dec 20));
    [reflexivity | reflexivity | by vm_compute | by vm_compute].
Defined.

(** * Missing-value counts, row dropping and range filtering *)

Lemma isna_sum_cons (c : column) (r : row) (t : table) :
  isna_sum c (r :: t)
  = ((if notna (col c r) then 0 else 1) + isna_sum c t)%nat.
Proof. unfold isna_sum. simpl. by destruct (notna (col c r)). Qed.

Lemma sum_list_isna_cons (subset : list column) (r : row) (t : table) :
  sum_list (map (fun c => isna_sum c (r :: t)) subset)
  = (sum_list (map (fun c => if notna (col c r) then 0 else 1) subset)
     + sum_list (map (fun c => isna_sum c t) subset))%nat.
Proof.
  induction subset as [|c subset IH]; simpl; [done|].
  rewrite IH, isna_sum_cons. lia.
Qed.

Lemma incomplete_row_counted (subset : list column) (r : row) :
  forallb (fun c => notna (col c r)) subset = false ->
  (1 ≤ sum_list (map (fun c => if notna (col c r) then 0 else 1) subset))%nat.
Proof.
  induction subset as [|c subset IH]; simpl; [done|].
  destruct (notna (col c r)); simpl; [exact IH|lia].
Qed.

(** X10: the counts printed at line 80 bound what line 89 removes: dropping
    on one column removes exactly as many rows as that column has absent
    values; dropping on several columns removes at most the total of
    their counts; after dropping, the count of every required column is
    zero; and a table whose required columns have no absent value is
    returned as it is. *)
Theorem isna_sum_dropna (subset : list column) (t : table) :
  (∀ c, (length (dropna [c] t) + isna_sum c t)%nat = length t)
  ∧ (length t ≤ length (dropna subset t)
               + sum_list (map (fun c => isna_sum c t) subset))%nat
  ∧ (∀ c, c ∈ subset -> isna_sum c (dropna subset t) = 0%nat)
  ∧ ((∀ c, c ∈ subset -> isna_sum c t = 0%nat) -> dropna subset t = t).
Proof.
  repeat apply conj.
  - intros c. induction t as [|r t IH]; [done|].
    rewrite isna_sum_cons. unfold dropna in *.
    cbn [List.filter forallb length] in *.
    destruct (notna (col c r)); cbn [andb length]; lia.
  - induction t as [|r t IH]; [simpl; lia|].
    rewrite sum_list_isna_cons. unfold dropna in *. simpl.
    destruct (forallb _ subset) eqn:Hr; simpl; [lia|].
    apply incomplete_row_counted in Hr. lia.
  - intros c Hc. unfold isna_sum, dropna.
    induction t as [|r t IH]; [done|]. simpl.
    destruct (forallb _ subset) eqn:Hr; [|exact IH]. simpl.
    rewrite forallb_forall in Hr. apply list_elem_of_In, Hr in Hc.
    by rewrite Hc.
  - intros Hnone. unfold dropna.
    induction t as [|r t IH]; [done|]. simpl.
    assert (Hr : forallb (fun c => notna (col c r)) subset = true).
    { apply forallb_forall. intros c Hc. apply list_elem_of_In in Hc.
      specialize (Hnone c Hc). rewrite isna_sum_cons in Hnone.
      destruct (notna (col c r)); [done|lia]. }
    rewrite Hr. f_equal. apply IH. intros c Hc.
    specialize (Hnone c Hc). rewrite isna_sum_cons in Hnone. lia.
Qed.

Lemma filter_comm {A : Type} (p q : A -> bool) (l : list A) :
  List.filter p (List.filter q l) = List.filter q (List.filter p l).
Proof.
  induction l as [|x l IH]; [done|]. simpl.
  destruct (p x) eqn:Hp, (q x) eqn:Hq; simpl; rewrite ?Hp, ?Hq, IH; done.
Qed.

Lemma filter_absorb {A : Type} (p q : A -> bool) (l : list A) :
  (∀ x, p x = true -> q x = true) ->
  List.filter q (List.filter p l) = List.filter p l.
Proof.
  intros Hpq. induction l as [|x l IH]; [done|]. simpl.
  destruct (p x) eqn:Hp; [|exact IH]. simpl. by rewrite (Hpq x Hp), IH.
Qed.

Lemma filter_ext_in_range (c : column) (low high : Qc) (r : row) :
  in_range c low high r = true -> notna (col c r) = true.
Proof. unfold in_range. by destruct (col c r). Qed.

(** X11: range filters and row dropping work row by row, so they commute:
    two range filters may be applied in either order, a range filter may
    be applied before or after [dropna], and since a comparison with an
    absent value is false, a range filter on a column makes a [dropna]
    on that column redundant. *)
Theorem filterRange_commutes (c c' : column) (low high low' high' : Qc)
    (subset : list column) (t : table) :
  filterRange c low high (filterRange c' low' high' t)
  = filterRange c' low' high' (filterRange c low high t)
  ∧ filterRange c low high (dropna subset t)
    = dropna subset (filterRange c low high t)
  ∧ filterRange c low high (dropna [c] t) = filterRange c low high t
  ∧ dropna [c] (filterRange c low high t) = filterRange c low high t.
Proof.
  unfold filterRange, dropna. repeat apply conj.
  - apply filter_comm.
  - apply filter_comm.
  - rewrite filter_comm. apply filter_absorb. intros r Hr.
    cbn [forallb]. by rewrite (filter_ext_in_range _ _ _ _ Hr).
  - apply filter_absorb. intros r Hr.
    cbn [forallb]. by rewrite (filter_ext_in_range _ _ _ _ Hr).
Qed.

(** X12: the bounds of a range filter: the lower one is exclusive and the
    upper one inclusive, rows with an absent value are dropped, the
    result is a subsequence of the table, and it is empty when the upper
    bound is not above the lower one. *)
Theorem filterRange_bounds (c : column) (low high : Qc) (t : table) :
  filterRange c low high t `sublist_of` t
  ∧ (∀ r, r ∈ t -> col c r = Some low -> r ∉ filterRange c low high t)
  ∧ (∀ r, r ∈ t -> col c r = None -> r ∉ filterRange c low high t)
  ∧ (∀ r, r ∈ t -> col c r = Some high -> low < high ->
          r ∈ filterRange c low high t)
  ∧ (high ≤ low -> filterRange c low high t = []).
Proof.
  unfold filterRange. repeat apply conj.
  - apply filter_sublist.
  - intros r _ Hr Hin. apply list_elem_of_In, filter_In in Hin as [_ Hin].
    apply in_range_spec in Hin as (v & Hv & Hlt & _).
    rewrite Hr in Hv. injection Hv as <-. by apply (Qclt_not_eq low low).
  - intros r _ Hr Hin. apply list_elem_of_In, filter_In in Hin as [_ Hin].
    apply in_range_spec in Hin as (v & Hv & _). by rewrite Hr in Hv.
  - intros r Hin Hr Hlt. apply list_elem_of_In, filter_In.
    split; [by apply list_elem_of_In|].
    apply in_range_spec. exists high. by repeat split.
  - intros Hle. induction t as [|r t IH]; [done|]. simpl.
    destruct (in_range c low high r) eqn:Hr; [|exact IH].
    apply in_range_spec in Hr as (v & _ & Hlt & Hhi). exfalso.
    apply (Qclt_not_le low v Hlt). by etrans.
Qed.

(** * Steps 5 to 8 in sequence *)

Lemma step5_run (σ : gmap string table) (t : table) :
  σ !! "df_selected" = Some t ->
  step5 σ = Returned (<["df_dropped" := dropna [GR; DT; SPOR] t]> σ).
Proof. intros Hσ. unfold step5, getvar. by rewrite Hσ. Qed.

Lemma step7_run (σ : gmap string table) (t : table) :
  σ !! "df_dropped" = Some t ->
  step7 σ = Returned (<["df_filt" := filterRange DT (dec 30) (dec 140) t]> σ).
Proof.
  intros Hσ. unfold step7, getvar. rewrite Hσ. simpl.
  repeat (rewrite ?lookup_insert_ne by done; rewrite Hσ; simpl).
  by rewrite !insert_insert_eq.
Qed.

(** With a gamma-ray value on every row, the Vsh column is all NaN or
    all numbers of [0, 1]. *)
Lemma Vsh_uniform (t : table) :
  Forall (fun r => is_Some (gr r)) t ->
  Forall (fun vr => Vsh vr = NaN) (add_Vsh t)
  ∨ Forall (fun vr => unit_value (Vsh vr)) (add_Vsh t).
Proof.
  intros Hgr. destruct t as [|r0 t0]; [left; apply Forall_nil_2|].
  set (t := r0 :: t0) in *.
  assert (Hr0 : r0 ∈ t) by apply list_elem_of_here.
  destruct (Forall_forall (fun r => is_Some (gr r)) t) as [Hall _].
  specialize (Hall Hgr).
  destruct (Hall r0 Hr0) as [g0 Hg0].
  pose proof (gr_in_column t r0 g0 Hr0 Hg0) as Hin.
  destruct (series_min_is_Some _ _ Hin) as [lo Hlo].
  destruct (series_max_is_Some _ _ Hin) as [hi Hhi].
  pose proof (series_min_le_max _ _ _ Hlo Hhi) as Hlh.
  assert (Hrow : ∀ r, r ∈ t -> ∃ g, gr r = Some g ∧ lo ≤ g ∧ g ≤ hi).
  { intros r Hr. destruct (Hall r Hr) as [g Hg]. exists g.
    pose proof (gr_in_column t r g Hr Hg) as Hing.
    split; [done|]. split.
    - by eapply series_min_lower.
    - by eapply series_max_upper. }
  destruct (Qcle_lt_or_eq lo hi Hlh) as [Hlt|Heq].
  - right. apply Forall_forall. intros vr Hvr.
    apply elem_of_add_Vsh in Hvr as (r & Hr & ->). cbn [Vsh].
    destruct (Hrow r Hr) as (g & Hg & H1 & H2). rewrite Hlo, Hhi, Hg.
    destruct (Vsh_value lo hi g Hlt H1 H2) as (v & Hv & ? & ? & _).
    by exists v.
  - left. subst hi. apply Forall_forall. intros vr Hvr.
    apply elem_of_add_Vsh in Hvr as (r & Hr & ->). cbn [Vsh].
    destruct (Hrow r Hr) as (g & Hg & H1 & H2). rewrite Hlo, Hhi, Hg.
    by apply Vsh_no_spread.
Qed.

(** X13: lines 89-137 from a bound [df_selected]: the resulting table is
    [df_selected] without the rows lacking GR, DT or SPOR and without
    the rows whose DT is not in (30, 140], in the original order; every
    remaining row has GR, DT and SPOR values; every Vsh is NaN or a
    number of [0, 1]; and when the spread of the remaining gamma-ray
    values is a finite double, the Vsh column is NaN on every row or a
    number of [0, 1] on every row. *)
Theorem steps_5_to_8_result (σ : gmap string table) (t : table)
    (Hselected : σ !! "df_selected" = Some t) :
  ∃ vs, steps_5_to_8 σ = Returned vs
    ∧ map logs vs = filterRange DT (dec 30) (dec 140) (dropna [GR; DT; SPOR] t)
    ∧ map logs vs `sublist_of` t
    ∧ Forall (fun vr => is_Some (gr (logs vr)) ∧ is_Some (spor (logs vr))
                        ∧ ∃ v, dt (logs vr) = Some v ∧ dec 30 < v ∧ v ≤ dec 140)
             vs
    ∧ Forall (fun vr => Vsh vr = NaN ∨ unit_value (Vsh vr)) vs
    ∧ (finite_spread (map logs vs) ->
       Forall (fun vr => Vsh vr = NaN) vs
       ∨ Forall (fun vr => unit_value (Vsh vr)) vs).
Proof.
  set (dropped := dropna [GR; DT; SPOR] t).
  set (filt := filterRange DT (dec 30) (dec 140) dropped).
  assert (Hrun : steps_5_to_8 σ = Returned (add_Vsh filt)).
  { unfold steps_5_to_8. rewrite (step5_run σ t Hselected). simpl.
    rewrite (step7_run _ dropped) by by rewrite lookup_insert_eq.
    simpl. unfold getvar. by rewrite lookup_insert_eq. }
  assert (Hlogs : map logs (add_Vsh filt) = filt).
  { unfold add_Vsh. rewrite map_map. simpl. apply map_id. }
  assert (Hrows : ∀ r, r ∈ filt ->
            is_Some (gr r) ∧ is_Some (spor r)
            ∧ ∃ v, dt r = Some v ∧ dec 30 < v ∧ v ≤ dec 140).
  { intros r Hr. unfold filt, filterRange in Hr.
    apply list_elem_of_In, filter_In in Hr as [Hr Hdt].
    apply in_range_spec in Hdt. unfold dropped, dropna in Hr.
    apply filter_In in Hr as [_ Hr]. apply complete_forallb in Hr.
    repeat apply conj; [| |exact Hdt].
    - apply not_eq_None_Some, (Hr GR), list_elem_of_here.
    - apply not_eq_None_Some, (Hr SPOR).
      do 2 apply list_elem_of_further. apply list_elem_of_here. }
  exists (add_Vsh filt).
  split; [exact Hrun|]. split; [exact Hlogs|]. split; [|split; [|split]].
  - rewrite Hlogs. etrans; [apply filter_sublist|apply filter_sublist].
  - apply Forall_forall. intros vr Hvr.
    apply Hrows. rewrite <- Hlogs. by apply (list_elem_of_fmap_2 logs).
  - apply Forall_forall. intros vr Hvr.
    apply elem_of_add_Vsh in Hvr as (r & Hr & ->). simpl.
    by apply Vsh_row_value.
  - intros _. apply Vsh_uniform. apply Forall_forall. intros r Hr.
    by apply Hrows.
Qed.

Lemma steps_5_to_8_result_demo :
  ∃ vs, steps_5_to_8 selected_store = Returned vs
    ∧ map logs vs
      = filterRange DT (dec 30) (dec 140) (dropna [GR; DT; SPOR] selected_rows)
    ∧ map logs vs `sublist_of` selected_rows
    ∧ Forall (fun vr => is_Some (gr (logs vr)) ∧ is_Some (spor (logs vr))
                        ∧ ∃ v, dt (logs vr) = Some v ∧ dec 30 < v ∧ v ≤ dec 140)
             vs
    ∧ Forall (fun vr => Vsh vr = NaN ∨ unit_value (Vsh vr)) vs
    ∧ (finite_spread (map logs vs) ->
       Forall (fun vr => Vsh vr = NaN) vs
       ∨ Forall (fun vr => unit_value (Vsh vr)) vs).
Proof. apply (steps_5_to_8_result selected_store selected_rows). reflexivity. Defined.

(** * Stacking order and passes of row dropping *)

(** X14: the polygon of a component depends only on the series up to it: two
    runs that differ in the fourth series give the same first three
    polygons, and two that differ in the third and fourth give the same
    first two. *)
Theorem polygons_depend_on_earlier_series
    (s1 s2 s3 s4 s3' s4' depths : list Qc) (minDepth maxDepth : Qc)
    (Hlen : Forall (fun s => (length depths ≤ length s)%nat)
                   [s1; s2; s3; s4; s3'; s4']) :
  ∃ ps ps' ps'',
    polygons s1 s2 s3 s4 depths minDepth maxDepth = Returned ps
    ∧ polygons s1 s2 s3 s4' depths minDepth maxDepth = Returned ps'
    ∧ polygons s1 s2 s3' s4' depths minDepth maxDepth = Returned ps''
    ∧ take 3 ps = take 3 ps'
    ∧ take 2 ps = take 2 ps''.
Proof.
  revert Hlen. rewrite !Forall_cons. intros (? & ? & ? & ? & ? & ? & _).
  do 3 eexists.
  repeat apply conj;
    [ apply polygons_fractions | apply polygons_fractions
    | apply polygons_fractions | reflexivity | reflexivity ];
    by repeat (apply Forall_cons; split).
Qed.

Lemma polygons_depend_on_earlier_series_reference :
  ∃ ps ps' ps'',
    polygons series1 series2 series3 series4 depths5 (dec 0) (dec 4) = Returned ps
    ∧ polygons series1 series2 series3 series1 depths5 (dec 0) (dec 4)
      = Returned ps'
    ∧ polygons series1 series2 series2 series1 depths5 (dec 0) (dec 4)
      = Returned ps''
    ∧ take 3 ps = take 3 ps'
    ∧ take 2 ps = take 2 ps''.
Proof.
  apply (polygons_depend_on_earlier_series series1 series2 series3 series4
           series2 series1 depths5 (dec 0) (dec 4)).
  repeat (apply Forall_cons; split); try apply Forall_nil; vm_compute; lia.
Defined.

Lemma filter_andb {A : Type} (p q : A -> bool) (l : list A) :
  List.filter (fun x => p x && q x) l = List.filter p (List.filter q l).
Proof.
  induction l as [|x l IH]; [done|]. simpl.
  destruct (q x) eqn:Hq; simpl.
  - rewrite andb_true_r. destruct (p x); by rewrite IH.
  - by rewrite andb_false_r.
Qed.

(** X15: dropping rows on two lists of columns in two passes is dropping on
    both lists at once, in either order of the passes, and a second pass
    on the same columns removes nothing more. *)
Theorem dropna_passes (subset subset' : list column) (t : table) :
  dropna (subset ++ subset') t = dropna subset (dropna subset' t)
  ∧ dropna subset (dropna subset' t) = dropna subset' (dropna subset t)
  ∧ dropna subset (dropna subset t) = dropna subset t.
Proof.
  unfold dropna. repeat apply conj.
  - rewrite <- filter_andb. apply filter_ext. intros r. apply forallb_app.
  - apply filter_comm.
  - apply filter_twice.
Qed.
